(** * chat-media-bucket: the upload / delete request pipeline

    A shallow embedding of [src/routes/files.js], [src/middleware/validation.js],
    [src/middleware/errorHandler.js] and [src/config/environment.js], with the
    parts of the Node.js runtime they call ([String.prototype.trim],
    [path.join], [path.extname], the synchronous [fs] calls) and of the
    [multer] multipart middleware they configure. *)

From Stdlib Require Import Strings.String Strings.Ascii.
From stdpp Require Import gmap strings list fin_maps.

Open Scope N_scope.

(** ** JavaScript values used by the handlers *)

Module JS.

(** A JavaScript string is a sequence of UTF-16 code units. *)
Abbreviation jsstring := (list N).

Definition lit (s : string) : jsstring :=
  (fun a => N_of_ascii a) <$> list_ascii_of_string s.

(** [ToString] as applied by a template literal [`${v}`] to a value that
    is either a string or [undefined]. *)
Definition template (v : option jsstring) : jsstring :=
  match v with
  | Some s => s
  | None => lit "undefined"
  end.

(** [!v] for a value that is a string or [undefined]: both [undefined]
    and the empty string are falsy. *)
Definition falsy (v : option jsstring) : bool :=
  match v with
  | None => true
  | Some [] => true
  | Some (_ :: _) => false
  end.

(** ECMAScript WhiteSpace and LineTerminator code points, the ones
    [String.prototype.trim] strips. All lie in the basic plane, so
    trimming works code unit by code unit. *)
Definition is_space (c : N) : bool :=
  (c =? 9) || (c =? 10) || (c =? 11) || (c =? 12) || (c =? 13) ||
  (c =? 32) || (c =? 160) || (c =? 5760) ||
  ((8192 <=? c) && (c <=? 8202)) ||
  (c =? 8232) || (c =? 8233) || (c =? 8239) || (c =? 8287) ||
  (c =? 12288) || (c =? 65279).

Fixpoint trimStart (s : jsstring) : jsstring :=
  match s with
  | c :: s' => if is_space c then trimStart s' else s
  | [] => []
  end.

Definition trimEnd (s : jsstring) : jsstring :=
  rev (trimStart (rev s)).

Definition trim (s : jsstring) : jsstring := trimEnd (trimStart s).

End JS.
Export JS.

(** ** Node.js [path] module (POSIX flavour) *)

Module Path.

Definition slash : N := 47.
Definition dot : N := 46.

(** The segments between separators: [split "a//b" = ["a"; ""; "b"]]. *)
Fixpoint split (s : jsstring) : list jsstring :=
  match s with
  | [] => [[]]
  | c :: s' =>
      if c =? slash then [] :: split s'
      else match split s' with
           | seg :: segs => (c :: seg) :: segs
           | [] => [[c]]
           end
  end.

Fixpoint unsplit (segs : list jsstring) : jsstring :=
  match segs with
  | [] => []
  | [seg] => seg
  | seg :: segs' => seg ++ slash :: unsplit segs'
  end.

(** [normalizeString]: the character scan of the source, read segment by
    segment. [res] holds the segments kept so far, last one first. Empty
    and ["."] segments are dropped; [".."] removes the last kept segment,
    or is kept itself when there is none to remove and the path is
    relative ([allowAboveRoot]). *)
Fixpoint normalizeString (allowAboveRoot : bool) (segs res : list jsstring)
  : list jsstring :=
  match segs with
  | [] => res
  | seg :: segs' =>
      if bool_decide (seg = []) || bool_decide (seg = [dot]) then
        normalizeString allowAboveRoot segs' res
      else if bool_decide (seg = [dot; dot]) then
        match res with
        | last :: rest =>
            if bool_decide (last = [dot; dot]) then
              normalizeString allowAboveRoot segs'
                (if allowAboveRoot then seg :: res else res)
            else normalizeString allowAboveRoot segs' rest
        | [] =>
            normalizeString allowAboveRoot segs'
              (if allowAboveRoot then [seg] else [])
        end
      else normalizeString allowAboveRoot segs' (seg :: res)
  end.

Definition normalize (path : jsstring) : jsstring :=
  match path with
  | [] => [dot]
  | c :: _ =>
      let isAbsolute := c =? slash in
      let trailingSeparator :=
        match last path with Some d => d =? slash | None => false end in
      let p := unsplit (rev (normalizeString (negb isAbsolute) (split path) [])) in
      match p with
      | [] =>
          if isAbsolute then [slash]
          else if trailingSeparator then [dot; slash] else [dot]
      | _ =>
          let p' := if trailingSeparator then p ++ [slash] else p in
          if isAbsolute then slash :: p' else p'
      end
  end.

(** [path.join(...args)]: the non-empty arguments glued with a separator,
    then normalised. *)
Definition join (args : list jsstring) : jsstring :=
  match filter (fun a : jsstring => a ≠ []) args with
  | [] => [dot]
  | l => normalize (unsplit l)
  end.

(** [path.extname]: one backwards scan over the code units. *)
Record scan := Scan {
  startDot : Z;
  startPart : Z;
  endPos : Z;
  matchedSlash : bool;
  preDotState : Z;
  stopped : bool   (* the loop was left by [break] *)
}.

Definition scan0 : scan := Scan (-1) 0 (-1) true 0 false.

(** The body of the loop at index [i] holding code unit [code]. *)
Definition scan_step (st : scan) (i : Z) (code : N) : scan :=
  if stopped st then st
  else if code =? slash then
    if negb (matchedSlash st) then
      Scan (startDot st) (i + 1) (endPos st) (matchedSlash st)
           (preDotState st) true
    else st
  else
    let '(e, m) :=
      if (endPos st =? -1)%Z then ((i + 1)%Z, false)
      else (endPos st, matchedSlash st) in
    if code =? dot then
      if (startDot st =? -1)%Z then
        Scan i (startPart st) e m (preDotState st) false
      else if negb (preDotState st =? 1)%Z then
        Scan (startDot st) (startPart st) e m 1 false
      else Scan (startDot st) (startPart st) e m (preDotState st) false
    else if negb (startDot st =? -1)%Z then
      Scan (startDot st) (startPart st) e m (-1) false
    else Scan (startDot st) (startPart st) e m (preDotState st) false.

(** [for (i = path.length - 1; i >= 0; --i)], over the reversed string. *)
Fixpoint scan_from (rpath : list N) (i : Z) (st : scan) : scan :=
  match rpath with
  | [] => st
  | code :: rpath' => scan_from rpath' (i - 1) (scan_step st i code)
  end.

Definition slice (s : jsstring) (from to : Z) : jsstring :=
  take (Z.to_nat (to - from)) (drop (Z.to_nat from) s).

Definition extname (path : jsstring) : jsstring :=
  let st := scan_from (rev path) (Z.of_nat (length path) - 1) scan0 in
  if (startDot st =? -1)%Z || (endPos st =? -1)%Z ||
     (preDotState st =? 0)%Z ||
     ((preDotState st =? 1)%Z && (startDot st =? endPos st - 1)%Z &&
      (startDot st =? startPart st + 1)%Z)
  then []
  else slice path (startDot st) (endPos st).

(** What the scan of [extname] knows after the code units [done], those
    at the indices from [k] on: the end of the extension lies within
    them, and the dot it has marked is one of them. *)
Definition scan_inv (k : Z) (done : jsstring) (st : scan) : Prop :=
  ((endPos st ≠ -1 -> k < endPos st <= k + Z.of_nat (length done)) ∧
   (startDot st ≠ -1 ->
    (k <= startDot st < endPos st) ∧
    done !! Z.to_nat (startDot st - k) = Some dot))%Z.

(** A segment that stays in a normalised path as it is. *)
Definition plain (seg : jsstring) : Prop :=
  seg ≠ [] ∧ seg ≠ [dot] ∧ seg ≠ [dot; dot] ∧ slash ∉ seg.

(** The shape of the segments [normalizeString] keeps (last one first):
    plain segments, above [k] leading [".."] that only a relative path
    may have. *)
Definition kept (allowAboveRoot : bool) (res : list jsstring) : Prop :=
  ∃ body k, res = body ++ replicate k [dot; dot] ∧ Forall plain body ∧
            (allowAboveRoot = false -> k = 0%nat).

Definition isAbsolute (path : jsstring) : bool :=
  match path with
  | c :: _ => c =? slash
  | [] => false
  end.

End Path.

(** ** HTTP responses *)

Inductive json :=
| JString (s : jsstring)
| JNumber (n : N).

Record response := Response {
  status : N;
  body : list (string * json)
}.

(** [res.status(code).json({ error, message })] *)
Definition error_json (code : N) (error message : string) : response :=
  Response code [("error"%string, JString (lit error));
                 ("message"%string, JString (lit message))].

(** What one middleware does with a request: hand it on ([next()]), end it
    with a response, or fail with an error object ([next(err)]). *)
Inductive step (E A : Type) :=
| Next (a : A)
| Respond (r : response)
| Raise (e : E).
Arguments Next {E A} a.
Arguments Respond {E A} r.
Arguments Raise {E A} e.

(** ** config/environment.js *)

Record environment := Environment {
  baseUrl : jsstring;
  volumePath : jsstring;
  (** [process.env.AUTH_TOKEN]: a string, or [undefined] when unset *)
  authToken : option jsstring
}.

(** [process.env.X || fallback]: unset and empty variables take the
    fallback. *)
Definition or_else (v : option jsstring) (fallback : jsstring) : jsstring :=
  if falsy v then fallback else template v.

(** The object [environment.js] exports, from the process environment and
    the directory of the file. The port and the log level play no part in
    the routes and are left out. *)
Definition load_environment (process_env : gmap string jsstring)
  (config_dirname : jsstring) : environment :=
  Environment
    (or_else (process_env !! "BASE_URL"%string) (lit "http://localhost:3000"))
    (or_else (process_env !! "VOLUME_PATH"%string)
             (Path.join [config_dirname; lit "../../../uploads"]))
    (process_env !! "AUTH_TOKEN"%string).

(** ** routes/files.js: authenticate *)

(** The error taxonomy of the specification, named after the response the
    code sends for each kind. *)
Definition Unauthorized : response :=
  error_json 401 "Missing authorization" "Authorization header is required".
Definition InvalidCredential : response :=
  error_json 401 "Invalid token" "Invalid authorization token".

(** [`Bearer ${environment.authToken}`] *)
Definition expected (env : environment) : jsstring :=
  lit "Bearer " ++ template (authToken env).

(** [token] is [req.headers['authorization']]: [None] when the request
    carries no such header. *)
Definition authenticate (env : environment) (token : option jsstring)
  : step Empty_set unit :=
  if falsy token then Respond Unauthorized
  else if bool_decide (token ≠ Some (expected env))
  then Respond InvalidCredential
  else Next tt.

(** ** middleware/validation.js: validateFilename *)

(** A value of [req.query] as the query-string parser of Express builds it:
    a string, an array (repeated parameter, [filename[]=..]) or a nested
    object ([filename[k]=..]). *)
#[warning="-register-all"]
Inductive qvalue :=
| QString (s : jsstring)
| QArray (l : list qvalue)
| QObject (l : list (jsstring * qvalue)).

(** [!v] on a query value: only [undefined] and the empty string are falsy,
    arrays and objects are truthy even when empty. *)
Definition qfalsy (v : option qvalue) : bool :=
  match v with
  | None => true
  | Some (QString s) => falsy (Some s)
  | Some _ => false
  end.

Definition MissingParameter : response :=
  error_json 400 "Missing required parameter" "filename is required".
Definition InvalidParameter : response :=
  error_json 400 "Invalid parameter" "filename must be a non-empty string".

(** [filename] is [req.query.filename]; on success the result is the value
    stored in [req.filename]. *)
Definition validateFilename (filename : option qvalue)
  : step Empty_set jsstring :=
  if qfalsy filename then Respond MissingParameter
  else match filename with
       | Some (QString s) =>
           if (length (trim s) =? 0)%nat then Respond InvalidParameter
           else Next (trim s)
       | _ => Respond InvalidParameter
       end.


(** ** Error objects *)

(** A JavaScript error object, with the fields the handlers look at. *)
Record jserror := JsError {
  instanceofMulterError : bool;
  name : jsstring;
  code : option jsstring;
  message : jsstring
}.

#[global] Instance jserror_eq_dec : EqDecision jserror.
Proof. solve_decision. Defined.

(** [new Error(message)] *)
Definition Error (message : string) : jserror :=
  JsError false (lit "Error") None (lit message).

(** ** The storage volume: Node.js [fs], synchronous calls *)

(** The file system is the state the routes share. A volume maps each path
    to the entry stored there; the calls below answer as the operating
    system would, by a value or by the error the call throws. A path is
    looked up as it is written: the routes pass the results of [path.join],
    which are normalised. A joined path that ends in a separator is looked
    up as written too, and so finds nothing, where the operating system
    would go on to the directory of that name. *)

Module Fs.

Inductive errno := ENOENT | EACCES | EISDIR | EEXIST | ENOTDIR.

Definition errno_code (e : errno) : jsstring :=
  match e with
  | ENOENT => lit "ENOENT"
  | EACCES => lit "EACCES"
  | EISDIR => lit "EISDIR"
  | EEXIST => lit "EEXIST"
  | ENOTDIR => lit "ENOTDIR"
  end.

(** The error a failing call throws: its [code] is the errno name. *)
Definition throw (e : errno) : jserror :=
  JsError false (lit "Error") (Some (errno_code e)) (errno_code e).

(** One entry of the volume. [protected] stands for the permissions of
    the directory that holds the entry: when set, the process may not
    remove the entry and [unlink] fails with EACCES. [readonly] stands for
    the permissions of the entry itself: when set, the process may not
    write to it, that is, put bytes into the file or make a new entry in
    the directory; the attempt fails with EACCES. *)
Record inode := Inode {
  size : N;
  isDirectory : bool;
  protected : bool;
  readonly : bool
}.

#[global] Instance inode_eq_dec : EqDecision inode.
Proof. solve_decision. Defined.

Definition regular (size : N) : inode := Inode size false false false.
Definition directory : inode := Inode 4096 true false false.

(** The volume maps a normalised path to the entry stored there. *)
Abbreviation volume := (gmap jsstring inode).

Definition existsSync (p : jsstring) (v : volume) : bool :=
  bool_decide (is_Some (v !! p)).

Definition statSync (p : jsstring) (v : volume) : jserror + inode :=
  match v !! p with
  | Some i => inr i
  | None => inl (throw ENOENT)
  end.

Definition unlinkSync (p : jsstring) (v : volume) : jserror + volume :=
  match v !! p with
  | None => inl (throw ENOENT)
  | Some i =>
      if protected i then inl (throw EACCES)
      else if isDirectory i then inl (throw EISDIR)
      else inr (delete p v)
  end.

(** The path itself and the directories above it: ["/a/b"] gives
    ["/a"; "/a/b"]. *)
Definition lineage (p : jsstring) : list jsstring :=
  filter (fun a : jsstring => a ≠ [] ∧ a ≠ [Path.slash])
    ((fun n => Path.unsplit (take n (Path.split p)))
       <$> seq 1 (length (Path.split p))).

(** The directory that holds the entry at [p]: the path without its last
    segment, ["/a"] for ["/a/b"]. *)
Definition holder (p : jsstring) : jsstring :=
  Path.unsplit (take (length (Path.split p) - 1) (Path.split p)).

(** Whether a new entry can be made at [p], where nothing lies: the
    directory that is to hold it must be there, be a directory, and let the
    process write. The root (and the working directory of a relative path)
    is no entry of the volume: it is taken to be there and to take new
    entries. *)
Definition create (p : jsstring) (v : volume) : option errno :=
  let d := holder p in
  if bool_decide (d = [] ∨ d = [Path.slash]) then None
  else
    match v !! d with
    | None => Some ENOENT
    | Some i =>
        if negb (isDirectory i) then Some ENOTDIR
        else if readonly i then Some EACCES
        else None
    end.

(** One step of the descent of [mkdirSync] to [p]: the directory [d] is
    there already, or is made inside [above], the directory visited before
    it ([None] at the top, which takes new entries). *)
Definition mkdir_step (p : jsstring)
  (acc : jserror + volume * option inode) (d : jsstring)
  : jserror + volume * option inode :=
  match acc with
  | inl e => inl e
  | inr (v', above) =>
      match v' !! d with
      | None =>
          if match above with Some a => readonly a | None => false end
          then inl (throw EACCES)
          else inr (<[d := directory]> v', Some directory)
      | Some i =>
          if isDirectory i then inr (v', Some i)
          else inl (throw (if bool_decide (d = p) then EEXIST else ENOTDIR))
      end
  end.

(** [mkdirSync(p, { recursive: true })] *)
Definition mkdirSync (p : jsstring) (v : volume) : jserror + volume :=
  match foldl (mkdir_step p) (inr (v, None)) (lineage p) with
  | inl e => inl e
  | inr (v', _) => inr v'
  end.

(** Creating (or truncating) the file at [p] and writing [n] bytes. *)
Definition writeFile (p : jsstring) (n : N) (v : volume) : jserror + volume :=
  match v !! p with
  | Some i =>
      if isDirectory i then inl (throw EISDIR)
      else if readonly i then inl (throw EACCES)
      else inr (<[p := Inode n false (protected i) false]> v)
  | None =>
      match create p v with
      | Some e => inl (throw e)
      | None => inr (<[p := regular n]> v)
      end
  end.

End Fs.

(** ** The multipart layer: [multer] *)

(** [multer] is a dependency of the service, not part of it. The module
    below renders what its middleware does with the file parts of one
    request, in the order the library takes its decisions: the parser
    counts the part against [limits.files]; a part without a file name is
    skipped; the field name is checked against the one given to [single];
    the [fileFilter] of the application is asked; the storage engine asks
    [destination] and [filename] and writes the file, and a stream that
    reaches [limits.fileSize] is cut there and reported. The first error ends
    the request, and the files written so far are removed. Text fields are
    left out. *)

Module Multer.

(** A file part of a multipart body. Its content is represented by its
    length in bytes, the only thing the pipeline looks at. *)
Record part := Part {
  part_fieldname : jsstring;
  part_filename : jsstring;
  part_mimeType : jsstring;
  part_length : N
}.

(** The [file] object handed to the callbacks, before storage. *)
Record fileinfo := FileInfo {
  info_fieldname : jsstring;
  info_originalname : jsstring;
  info_mimetype : jsstring
}.

(** The [file] object after storage on disk: [req.file]. *)
Record file := File {
  fieldname : jsstring;
  originalname : jsstring;
  mimetype : jsstring;
  destination : jsstring;
  filename : jsstring;
  path : jsstring;
  size : N
}.

(** [new MulterError(code, field)]; no handler looks at the [field] the
    error also carries. *)
Definition MulterError (c message : string) (field : jsstring) : jserror :=
  JsError true (lit "MulterError") (Some (lit c)) (lit message).

Definition LIMIT_FILE_SIZE := MulterError "LIMIT_FILE_SIZE" "File too large".
Definition LIMIT_FILE_COUNT := MulterError "LIMIT_FILE_COUNT" "Too many files".
Definition LIMIT_UNEXPECTED_FILE :=
  MulterError "LIMIT_UNEXPECTED_FILE" "Unexpected field".

(** The options given to [multer({ storage, limits, fileFilter })], with
    [storage = multer.diskStorage({ destination, filename })]. The
    callbacks answer through [cb(err)] or [cb(null, value)];
    [destination] may touch the volume, and [filename] gets the number of
    identifiers drawn so far from the random source. *)
Record options := Options {
  opt_destination : fileinfo -> Fs.volume -> (jserror + jsstring) * Fs.volume;
  opt_filename : fileinfo -> nat -> jserror + jsstring;
  opt_fileSize : N;
  opt_files : N;
  opt_fileFilter : fileinfo -> jserror + bool
}.

(** The state of one run of the middleware over a request. *)
Record run := Run {
  nfiles : N;                 (* file parts the parser has counted *)
  filesLeft : N;              (* files still allowed under the field *)
  uploadedFiles : list file;  (* files written so far *)
  reqfile : option file;      (* [req.file] *)
  draws : nat;                (* identifiers drawn so far *)
  disk : Fs.volume
}.

(** [DiskStorage.prototype._removeFile] on every written file, when the
    request is aborted; errors of the removal are not reported. *)
Definition removeUploadedFiles (files : list file) (v : Fs.volume) : Fs.volume :=
  foldl (fun v' f => match Fs.unlinkSync (path f) v' with
                     | inr v'' => v''
                     | inl _ => v'
                     end) v files.

Definition abort (e : jserror) (st : run) : jserror * Fs.volume :=
  (e, removeUploadedFiles (uploadedFiles st) (disk st)).

(** One file part, for [upload.single(field)]. *)
Definition on_file (o : options) (field : jsstring) (st : run) (p : part)
  : jserror * Fs.volume + run :=
  (* the parser enforces [limits.files] before it announces the part *)
  if nfiles st =? opt_files o then inl (abort (LIMIT_FILE_COUNT (part_fieldname p)) st)
  else
    let st := Run (nfiles st + 1) (filesLeft st) (uploadedFiles st)
                  (reqfile st) (draws st) (disk st) in
    (* a part without a file name is skipped *)
    if bool_decide (part_filename p = []) then inr st
    else
      let f := FileInfo (part_fieldname p) (part_filename p) (part_mimeType p) in
      (* the field must be the expected one, and only once *)
      if bool_decide (part_fieldname p ≠ field) || (filesLeft st =? 0) then
        inl (abort (LIMIT_UNEXPECTED_FILE (part_fieldname p)) st)
      else
        let st := Run (nfiles st) (filesLeft st - 1) (uploadedFiles st)
                      (reqfile st) (draws st) (disk st) in
        match opt_fileFilter o f with
        | inl e => inl (abort e st)
        | inr false => inr st
        | inr true =>
            (* [DiskStorage.prototype._handleFile] *)
            match opt_destination o f (disk st) with
            | (inl e, v) =>
                inl (abort e (Run (nfiles st) (filesLeft st) (uploadedFiles st)
                                  (reqfile st) (draws st) v))
            | (inr dest, v) =>
                match opt_filename o f (draws st) with
                | inl e =>
                    inl (abort e (Run (nfiles st) (filesLeft st) (uploadedFiles st)
                                      (reqfile st) (S (draws st)) v))
                | inr fname =>
                    let finalPath := Path.join [dest; fname] in
                    let written := N.min (part_length p) (opt_fileSize o) in
                    match Fs.writeFile finalPath written v with
                    | inl e =>
                        inl (abort e (Run (nfiles st) (filesLeft st) (uploadedFiles st)
                                          (reqfile st) (S (draws st)) v))
                    | inr v' =>
                        let stored :=
                          File (part_fieldname p) (part_filename p) (part_mimeType p)
                               dest fname finalPath written in
                        let st' := Run (nfiles st) (filesLeft st)
                                       (uploadedFiles st ++ [stored])
                                       (Some stored) (S (draws st)) v' in
                        (* the stream reached [limits.fileSize]: the parser
                           reports the limit once it has taken that many
                           bytes, and the truncated file is removed again *)
                        if opt_fileSize o <=? part_length p then
                          inl (abort (LIMIT_FILE_SIZE (part_fieldname p)) st')
                        else inr st'
                    end
                end
            end
        end.

Fixpoint on_parts (o : options) (field : jsstring) (st : run) (ps : list part)
  : jserror * Fs.volume + run :=
  match ps with
  | [] => inr st
  | p :: ps' =>
      match on_file o field st p with
      | inl a => inl a
      | inr st' => on_parts o field st' ps'
      end
  end.

(** [multer(o).single(field)] run on the file parts of a request body, in
    the order of the body. *)
Definition single (o : options) (field : jsstring) (ps : list part)
  (v : Fs.volume) : step jserror (option file) * Fs.volume :=
  match on_parts o field (Run 0 1 [] None 0 v) ps with
  | inl (e, v') => (Raise e, v')
  | inr st => (Next (reqfile st), disk st)
  end.

End Multer.

(** ** routes/files.js: the multipart configuration *)

(** The two ambient values of the module: the loaded configuration and
    [__dirname], the directory of [routes/files.js]. *)
Record module := Module {
  env : environment;
  __dirname : jsstring
}.

Definition VOLUME_PATH (m : module) : jsstring := volumePath (env m).
Definition BASE_URL (m : module) : jsstring := baseUrl (env m).

Definition allowedMimeTypes : list jsstring :=
  lit <$> [ "image/jpeg"; "image/png"; "image/gif"; "image/webp";
            "application/pdf"; "text/plain"; "application/json"; "text/csv";
            "application/vnd.ms-excel";
            "application/vnd.openxmlformats-officedocument.spreadsheetml.sheet"
          ]%string.

(** [Array.prototype.includes] on strings *)
Definition includes (l : list jsstring) (x : jsstring) : bool :=
  bool_decide (x ∈ l).

(** The directory the routes store files in. *)
Definition storageDir (m : module) : jsstring :=
  Path.join [__dirname m; lit ".."; VOLUME_PATH m].

Definition storage_destination (m : module) (f : Multer.fileinfo) (v : Fs.volume)
  : (jserror + jsstring) * Fs.volume :=
  let dir := storageDir m in
  match Fs.mkdirSync dir v with
  | inr v' => (inr dir, v')
  | inl error => (inl error, v)
  end.

(** [uuidv4] is the random source: [uuidv4 n] is the identifier of the
    [n]-th draw within the request. *)
Definition storage_filename (uuidv4 : nat -> jsstring) (f : Multer.fileinfo)
  (n : nat) : jserror + jsstring :=
  let ext := Path.extname (Multer.info_originalname f) in
  inr (uuidv4 n ++ ext).

Definition fileFilter (f : Multer.fileinfo) : jserror + bool :=
  if negb (includes allowedMimeTypes (Multer.info_mimetype f))
  then inl (Error "Unsupported file type")
  else inr true.

Definition upload (m : module) (uuidv4 : nat -> jsstring) : Multer.options :=
  Multer.Options (storage_destination m) (storage_filename uuidv4)
                 (10 * 1024 * 1024) 1 fileFilter.

(** The name, the path and the [file] object of the first file a request
    stores: the identifier is the first draw of the request. *)
Definition stored_name (uuidv4 : nat -> jsstring) (p : Multer.part) : jsstring :=
  uuidv4 0%nat ++ Path.extname (Multer.part_filename p).

Definition stored_path (m : module) (uuidv4 : nat -> jsstring) (p : Multer.part)
  : jsstring :=
  Path.join [storageDir m; stored_name uuidv4 p].

Definition stored_file (m : module) (uuidv4 : nat -> jsstring) (p : Multer.part)
  : Multer.file :=
  Multer.File (Multer.part_fieldname p) (Multer.part_filename p)
              (Multer.part_mimeType p) (storageDir m) (stored_name uuidv4 p)
              (stored_path m uuidv4 p)
              (N.min (Multer.part_length p) (10 * 1024 * 1024)).

(** A file part the route is meant for: it has a file name, comes under
    the field [file], and declares an allowed type. *)
Definition expected_part (p : Multer.part) : bool :=
  negb (bool_decide (Multer.part_filename p = [])) &&
  bool_decide (Multer.part_fieldname p = lit "file") &&
  includes allowedMimeTypes (Multer.part_mimeType p).


(** ** middleware/validation.js: validateFileUpload *)

Definition NoFileUploaded : response :=
  error_json 400 "No file uploaded" "Please select a file to upload".
Definition UnsupportedFileType : response :=
  error_json 400 "Unsupported file type" "The uploaded file type is not supported".

Definition validateFileUpload (file : option Multer.file)
  : step Empty_set Multer.file :=
  match file with
  | None => Respond NoFileUploaded
  | Some f =>
      if negb (includes allowedMimeTypes (Multer.mimetype f))
      then Respond UnsupportedFileType
      else Next f
  end.

(** ** middleware/errorHandler.js *)

Definition UploadTooLarge : response :=
  error_json 413 "File too large"
    "The uploaded file exceeds the maximum allowed size".
Definition TooManyFiles : response :=
  error_json 413 "Too many files" "Only one file is allowed per request".
Definition UnexpectedField : response :=
  Response 400
    [("error"%string, JString (lit "Invalid field name"));
     ("message"%string,
       JString (lit "File must be uploaded with field name " ++
                [34] ++ lit "file" ++ [34]))].
Definition FileNotFound_requested : response :=
  error_json 404 "File not found" "The requested file does not exist".
Definition PermissionDenied : response :=
  error_json 403 "Permission denied" "Access to the file is denied".
Definition InternalServerError : response :=
  error_json 500 "Internal server error" "An unexpected error occurred".

Definition errorHandler (err : jserror) : response :=
  if instanceofMulterError err then
    if bool_decide (code err = Some (lit "LIMIT_FILE_SIZE")) then UploadTooLarge
    else if bool_decide (code err = Some (lit "LIMIT_FILE_COUNT")) then TooManyFiles
    else if bool_decide (code err = Some (lit "LIMIT_UNEXPECTED_FILE"))
    then UnexpectedField
    else Response 400 [("error"%string, JString (lit "Upload error"));
                       ("message"%string, JString (message err))]
  else if bool_decide (name err = lit "ValidationError") then
    Response 400 [("error"%string, JString (lit "Validation error"));
                  ("message"%string, JString (message err))]
  else if bool_decide (code err = Some (lit "ENOENT")) then FileNotFound_requested
  else if bool_decide (code err = Some (lit "EACCES")) then PermissionDenied
  else InternalServerError.

(** ** routes/files.js: the two protected routes *)

(** The stages of a route, to record which of them ran. *)
Inductive stage :=
| ran_authenticate
| ran_upload_single
| ran_validateFileUpload
| ran_validateFilename
| ran_handler
| ran_errorHandler.

(** What a request leaves behind: the response sent, the volume, and the
    stages that ran, in order. *)
Record outcome := Outcome {
  sent : response;
  volume_after : Fs.volume;
  stages : list stage
}.

(** An upload request: the [Authorization] header and the file parts of
    the multipart body. *)
Record upload_request := UploadRequest {
  up_authorization : option jsstring;
  up_parts : list Multer.part
}.

Definition upload_handler (m : module) (file : Multer.file) : response :=
  Response 200
    [("filePath"%string,
       JString (BASE_URL m ++ lit "/files/" ++ Multer.filename file));
     ("filename"%string, JString (Multer.filename file));
     ("originalname"%string, JString (Multer.originalname file));
     ("size"%string, JNumber (Multer.size file));
     ("mimetype"%string, JString (Multer.mimetype file))].

(** [router.post('/upload', authenticate, upload.single('file'),
    validateFileUpload, handler)], with the error handler the application
    installs after the router. *)
Definition post_upload (m : module) (uuidv4 : nat -> jsstring)
  (req : upload_request) (v : Fs.volume) : outcome :=
  match authenticate (env m) (up_authorization req) with
  | Respond r => Outcome r v [ran_authenticate]
  | Raise e => match e with end
  | Next _ =>
      match Multer.single (upload m uuidv4) (lit "file") (up_parts req) v with
      | (Respond r, v') => Outcome r v' [ran_authenticate; ran_upload_single]
      | (Raise err, v') =>
          Outcome (errorHandler err) v'
                  [ran_authenticate; ran_upload_single; ran_errorHandler]
      | (Next file, v') =>
          match validateFileUpload file with
          | Respond r =>
              Outcome r v'
                [ran_authenticate; ran_upload_single; ran_validateFileUpload]
          | Raise e => match e with end
          | Next f =>
              Outcome (upload_handler m f) v'
                [ran_authenticate; ran_upload_single; ran_validateFileUpload;
                 ran_handler]
          end
      end
  end.

(** A delete request: the [Authorization] header and [req.query.filename]. *)
Record delete_request := DeleteRequest {
  del_authorization : option jsstring;
  del_filename : option qvalue
}.

Definition FileNotFound : response :=
  error_json 404 "File not found" "The specified file does not exist".
Definition DeleteFailed : response :=
  error_json 500 "Delete failed" "An error occurred while deleting the file".

(** The path the delete handler works on. *)
Definition delete_target (m : module) (filename : jsstring) : jsstring :=
  Path.join [__dirname m; lit ".."; VOLUME_PATH m; filename].

(** The [catch] block of the delete handler. *)
Definition delete_catch (error : jserror) : response :=
  if bool_decide (code error = Some (lit "EACCES")) then PermissionDenied
  else DeleteFailed.

Definition delete_handler (m : module) (filename : jsstring) (v : Fs.volume)
  : response * Fs.volume :=
  let filePath := delete_target m filename in
  if negb (Fs.existsSync filePath v) then (FileNotFound, v)
  else
    match Fs.statSync filePath v with
    | inl error => (delete_catch error, v)
    | inr stats =>
        match Fs.unlinkSync filePath v with
        | inl error => (delete_catch error, v)
        | inr v' =>
            (Response 200
               [("message"%string, JString (lit "File successfully deleted"));
                ("filename"%string, JString filename);
                ("size"%string, JNumber (Fs.size stats))],
             v')
        end
    end.

(** [router.delete('/delete', authenticate, validateFilename, handler)] *)
Definition delete_delete (m : module) (req : delete_request) (v : Fs.volume)
  : outcome :=
  match authenticate (env m) (del_authorization req) with
  | Respond r => Outcome r v [ran_authenticate]
  | Raise e => match e with end
  | Next _ =>
      match validateFilename (del_filename req) with
      | Respond r => Outcome r v [ran_authenticate; ran_validateFilename]
      | Raise e => match e with end
      | Next filename =>
          let '(r, v') := delete_handler m filename v in
          Outcome r v' [ran_authenticate; ran_validateFilename; ran_handler]
      end
  end.

(** ** routes/files.js: the download route *)

(** [router.use('/files', check, express.static(...))]: the check that runs
    before the static file server. No authenticator is in the chain.
    [reqpath] is [req.path], the part of the URL after [/files], such as
    [/name.jpg]; on [Next] the request goes on to the static server. *)
Definition files_check (m : module) (reqpath : jsstring) (v : Fs.volume)
  : step Empty_set unit :=
  let staticPath := Path.join [__dirname m; lit ".."; VOLUME_PATH m] in
  let filePath := Path.join [staticPath; reqpath] in
  if negb (Fs.existsSync filePath v) then Respond FileNotFound_requested
  else Next tt.

(** ** index.js: the authenticator of the single-file application *)

Definition Unauthorized_legacy : response :=
  Response 401 [("error"%string, JString (lit "Unauthorized"))].

Definition authenticate_legacy (env : environment) (token : option jsstring)
  : step Empty_set unit :=
  if bool_decide (token = Some (expected env)) then Next tt
  else Respond Unauthorized_legacy.

(** ** A sample deployment *)

Module Sample.

Definition process_env : gmap string jsstring :=
  {[ "AUTH_TOKEN"%string := lit "s3cret" ]}.

(** The service installed under [/app], secret set. *)
Definition m : module :=
  Module (load_environment process_env (lit "/app/src/config"))
         (lit "/app/src/routes").

(** The same, started without [AUTH_TOKEN]. *)
Definition m_unset : module :=
  Module (load_environment ∅ (lit "/app/src/config")) (lit "/app/src/routes").

Definition bearer : option jsstring := Some (lit "Bearer s3cret").

(** A random source. *)
Definition uuidv4 (n : nat) : jsstring :=
  match n with
  | O => lit "123e4567-e89b-12d3-a456-426614174000"
  | S _ => lit "9b2f6c1e-5a44-4f0e-8d3b-0c1a2b3c4d5e"
  end.

Definition photo : Multer.part :=
  Multer.Part (lit "file") (lit "Holiday.JPG") (lit "image/jpeg") 2048576.

(** An image of 11 MiB. *)
Definition scan_11MiB : Multer.part :=
  Multer.Part (lit "file") (lit "scan.png") (lit "image/png") (11 * 1024 * 1024).


Definition installer : Multer.part :=
  Multer.Part (lit "file") (lit "setup.exe")
              (lit "application/x-msdownload") 1000.




(** A volume holding one stored file and a file next to the storage
    directory. *)
Definition vol : Fs.volume :=
  <[ lit "/app/src/uploads/123e4567-e89b-12d3-a456-426614174000.JPG" :=
       Fs.regular 2048576 ]>
  (<[ lit "/app/src/uploads" := Fs.directory ]>
  (<[ lit "/app/src/secret.env" := Fs.regular 64 ]> ∅)).

End Sample.

(** * Properties *)

(** Closed statements about the sample deployment are settled by running
    the definitions, one conjunct at a time. *)
Ltac by_running :=
  cbv zeta; repeat apply conj;
  first [ apply (bool_decide_unpack _); vm_compute; exact I
        | vm_compute; first [reflexivity | discriminate | (intros ?; discriminate)] ].

(** ** Responses *)

Lemma Unauthorized_status : status Unauthorized = 401.
Proof. reflexivity. Qed.

Lemma InvalidCredential_status : status InvalidCredential = 401.
Proof. reflexivity. Qed.

Lemma errorHandler_status (err : jserror) :
  status (errorHandler err) ∈ [413; 400; 404; 403; 500].
Proof.
  unfold errorHandler.
  repeat (case_match || case_bool_decide); simpl; set_solver.
Qed.

(** ** The authenticator *)

Section Authenticator.

Variable e : environment.

Lemma expected_not_falsy : falsy (Some (expected e)) = false.
Proof. reflexivity. Qed.

Lemma authenticate_pass (token : option jsstring) :
  authenticate e token = Next tt <-> token = Some (expected e).
Proof.
  unfold authenticate.
  destruct (falsy token) eqn:F.
  - split; [discriminate|].
    intros ->. rewrite expected_not_falsy in F. discriminate.
  - destruct (decide (token = Some (expected e))) as [Heq|Hne].
    + rewrite bool_decide_eq_false_2 by (intros ?; done). done.
    + rewrite bool_decide_eq_true_2 by done. split; [discriminate|done].
Qed.

Lemma authenticate_fail (token : option jsstring) :
  token ≠ Some (expected e) ->
  authenticate e token = Respond Unauthorized ∨
  authenticate e token = Respond InvalidCredential.
Proof.
  intros H. unfold authenticate.
  destruct (falsy token); [by left|].
  rewrite bool_decide_eq_true_2 by done. by right.
Qed.

End Authenticator.

(** C1, as stated, fails. Started without AUTH_TOKEN, the service compares
    the header with the text the template literal builds from [undefined]:
    a request carrying [Bearer undefined] passes the authenticator, and its
    delete reaches the volume. *)
Lemma unset_secret_counterexample :
  authToken (env Sample.m_unset) = None ∧
  authenticate (env Sample.m_unset) (Some (lit "Bearer undefined")) = Next tt ∧
  let o := delete_delete Sample.m_unset
             (DeleteRequest (Some (lit "Bearer undefined"))
                            (Some (QString (lit "../secret.env"))))
             Sample.vol in
  status (sent o) = 200 ∧
  Sample.vol !! lit "/app/src/secret.env" = Some (Fs.regular 64) ∧
  volume_after o !! lit "/app/src/secret.env" = None.
Proof. by_running. Qed.

(** C1, amended: when the configured secret is undefined, the authenticator
    lets a request through exactly when its Authorization header is the
    text [Bearer undefined]; every other request is answered 401. *)
Theorem unset_secret_accepts_only_undefined (e : environment)
  (token : option jsstring) :
  authToken e = None ->
  (authenticate e token = Next tt <-> token = Some (lit "Bearer undefined")) ∧
  (token ≠ Some (lit "Bearer undefined") ->
   ∃ r, authenticate e token = Respond r ∧ status r = 401).
Proof.
  intros Hunset.
  assert (Hexp : expected e = lit "Bearer undefined")
    by (unfold expected; rewrite Hunset; reflexivity).
  split.
  - rewrite authenticate_pass, Hexp. done.
  - intros Hne. rewrite <- Hexp in Hne.
    destruct (authenticate_fail e token Hne) as [H | H]; rewrite H;
      eexists; split; reflexivity.
Qed.

Lemma unset_secret_accepts_only_undefined_witness :
  (authenticate (env Sample.m_unset) Sample.bearer = Next tt <->
   Sample.bearer = Some (lit "Bearer undefined")) ∧
  (Sample.bearer ≠ Some (lit "Bearer undefined") ->
   ∃ r, authenticate (env Sample.m_unset) Sample.bearer = Respond r ∧
        status r = 401).
Proof.
  apply (unset_secret_accepts_only_undefined (env Sample.m_unset) Sample.bearer).
  reflexivity.
Defined.

(** C3, as stated, fails on a header that is present but empty: it is not
    the expected value, yet the answer is the one for a missing header. *)
Lemma empty_header_counterexample :
  Some [] ≠ (None : option jsstring) ∧
  [] ≠ expected (env Sample.m) ∧
  authenticate (env Sample.m) (Some []) = Respond Unauthorized ∧
  authenticate (env Sample.m) (Some []) ≠ Respond InvalidCredential.
Proof. by_running. Qed.

(** C3, amended: the authenticator answers Unauthorized (401) when the
    Authorization header is absent or empty, InvalidCredential (401) when
    it is a non-empty value other than the prefix [Bearer ] followed by the
    configured secret, and passes the request on when it is that value. *)
Theorem authenticate_cases (e : environment) (token : option jsstring) :
  (token = None ∨ token = Some [] ->
   authenticate e token = Respond Unauthorized) ∧
  (∀ t, token = Some t -> t ≠ [] -> t ≠ lit "Bearer " ++ template (authToken e) ->
   authenticate e token = Respond InvalidCredential) ∧
  (token = Some (lit "Bearer " ++ template (authToken e)) ->
   authenticate e token = Next tt) ∧
  status Unauthorized = 401 ∧ status InvalidCredential = 401.
Proof.
  repeat split.
  - intros [-> | ->]; reflexivity.
  - intros t -> Ht Hne. unfold authenticate.
    destruct t; [done|]. simpl.
    rewrite bool_decide_eq_true_2; [done|].
    intros Heq. apply Hne. apply (inj Some) in Heq. exact Heq.
  - intros ->. by apply authenticate_pass.
Qed.

Lemma authenticate_cases_witness :
  authenticate (env Sample.m) None = Respond Unauthorized ∧
  authenticate (env Sample.m) (Some (lit "Bearer guess")) = Respond InvalidCredential ∧
  authenticate (env Sample.m) Sample.bearer = Next tt.
Proof.
  split; [|split].
  - exact (proj1 (authenticate_cases (env Sample.m) None) (or_introl eq_refl)).
  - refine (proj1 (proj2 (authenticate_cases (env Sample.m)
                            (Some (lit "Bearer guess")))) _ eq_refl _ _);
      vm_compute; discriminate.
  - exact (proj1 (proj2 (proj2 (authenticate_cases (env Sample.m) Sample.bearer)))
             eq_refl).
Defined.

(** C5: an upload whose Authorization header is missing or is not the
    expected bearer value is answered 401 by the authenticator alone; no
    later stage runs and the volume is left as it was. *)
Theorem upload_unauthenticated_frame (m : module) (uuidv4 : nat -> jsstring)
  (req : upload_request) (v : Fs.volume) :
  up_authorization req ≠ Some (lit "Bearer " ++ template (authToken (env m))) ->
  status (sent (post_upload m uuidv4 req v)) = 401 ∧
  volume_after (post_upload m uuidv4 req v) = v ∧
  stages (post_upload m uuidv4 req v) = [ran_authenticate].
Proof.
  intros Hne. unfold post_upload.
  destruct (authenticate_fail (env m) _ Hne) as [-> | ->]; done.
Qed.

Lemma upload_unauthenticated_frame_witness :
  let req := UploadRequest (Some (lit "Bearer guess")) [Sample.photo] in
  status (sent (post_upload Sample.m Sample.uuidv4 req Sample.vol)) = 401 ∧
  volume_after (post_upload Sample.m Sample.uuidv4 req Sample.vol) = Sample.vol ∧
  stages (post_upload Sample.m Sample.uuidv4 req Sample.vol) = [ran_authenticate].
Proof.
  apply (upload_unauthenticated_frame Sample.m Sample.uuidv4
           (UploadRequest (Some (lit "Bearer guess")) [Sample.photo]) Sample.vol).
  vm_compute. discriminate.
Defined.

(** ** The filename validator *)

Lemma Missing_not_Invalid : MissingParameter ≠ InvalidParameter.
Proof. discriminate. Qed.

Lemma trim_nil_length (s : jsstring) :
  (length (trim s) =? 0)%nat = bool_decide (trim s = []).
Proof. destruct (trim s); reflexivity. Qed.

Lemma validateFilename_string (s : jsstring) :
  validateFilename (Some (QString s)) =
  if bool_decide (s = []) then Respond MissingParameter
  else if bool_decide (trim s = []) then Respond InvalidParameter
  else Next (trim s).
Proof.
  unfold validateFilename. destruct s as [|c s]; [reflexivity|].
  cbn [qfalsy falsy]. rewrite trim_nil_length.
  rewrite (bool_decide_eq_false_2 (c :: s = [])) by discriminate. reflexivity.
Qed.

(** C4, as stated, fails on [?filename=]: the parameter is present, its
    value is empty after trimming, and the answer is MissingParameter, not
    InvalidParameter. *)
Lemma empty_filename_counterexample :
  Some (QString []) ≠ None ∧
  trim [] = [] ∧
  validateFilename (Some (QString [])) = Respond MissingParameter ∧
  validateFilename (Some (QString [])) ≠ Respond InvalidParameter.
Proof. repeat split; discriminate. Qed.

(** C4, amended: the filename validator answers MissingParameter (400)
    exactly when the parameter is absent or is the empty string; it answers
    InvalidParameter (400) exactly when the parameter is present and is
    either not a string or a non-empty string that trimming leaves empty;
    otherwise it succeeds, and the delete handler is run on the trimmed
    value. *)
Theorem validateFilename_cases (q : option qvalue) :
  (validateFilename q = Respond MissingParameter <->
   q = None ∨ q = Some (QString [])) ∧
  (validateFilename q = Respond InvalidParameter <->
   ∃ v, q = Some v ∧
        match v with
        | QString s => s ≠ [] ∧ trim s = []
        | _ => True
        end) ∧
  (∀ s, q = Some (QString s) -> trim s ≠ [] ->
     validateFilename q = Next (trim s) ∧
     ∀ m token v,
       authenticate (env m) token = Next tt ->
       delete_delete m (DeleteRequest token q) v =
       Outcome (delete_handler m (trim s) v).1 (delete_handler m (trim s) v).2
               [ran_authenticate; ran_validateFilename; ran_handler]) ∧
  status MissingParameter = 400 ∧ status InvalidParameter = 400.
Proof.
  split; [|split; [|split; [|done]]].
  - destruct q as [[s|l|l]|].
    + rewrite validateFilename_string.
      destruct (decide (s = [])) as [->|Hs].
      * rewrite bool_decide_eq_true_2 by done. split; [intros _; by right | done].
      * rewrite (bool_decide_eq_false_2 (s = [])) by done.
        case_bool_decide;
          (split; [discriminate | intros [Hq|Hq]; [discriminate | by injection Hq]]).
    + split; [discriminate | intros [Hq|Hq]; discriminate].
    + split; [discriminate | intros [Hq|Hq]; discriminate].
    + split; [intros _; by left | done].
  - destruct q as [[s|l|l]|].
    + rewrite validateFilename_string.
      destruct (decide (s = [])) as [->|Hs].
      * rewrite bool_decide_eq_true_2 by done.
        split; [discriminate | intros (v & Hq & Hv)].
        injection Hq as <-. by destruct Hv.
      * rewrite (bool_decide_eq_false_2 (s = [])) by done.
        case_bool_decide as Ht.
        -- split; [intros _ | done]. exists (QString s). done.
        -- split; [discriminate | intros (v & Hq & Hv)].
           injection Hq as <-. by destruct Hv.
    + split; [intros _ | done]. exists (QArray l). done.
    + split; [intros _ | done]. exists (QObject l). done.
    + split; [discriminate | intros (v & Hq & _); discriminate].
  - intros s -> Ht.
    assert (Hv : validateFilename (Some (QString s)) = Next (trim s)).
    { rewrite validateFilename_string.
      rewrite (bool_decide_eq_false_2 (trim s = [])) by done.
      rewrite bool_decide_eq_false_2; [done|]. intros ->. by apply Ht. }
    split; [exact Hv|].
    intros m token v Hauth. unfold delete_delete. cbn [del_authorization del_filename].
    rewrite Hauth, Hv. by destruct (delete_handler m (trim s) v).
Qed.

Lemma validateFilename_cases_witness :
  validateFilename (Some (QString (lit "  report.pdf "))) = Next (lit "report.pdf").
Proof.
  refine (proj1 (proj1 (proj2 (proj2 (validateFilename_cases
                                        (Some (QString (lit "  report.pdf "))))))
                   (lit "  report.pdf ") eq_refl _)).
  vm_compute. discriminate.
Defined.

(** C10: a filename query value that is present but not a string (an array
    from a repeated parameter, or a nested object) is answered 400
    InvalidParameter by the validator, whatever its shape; on an
    authenticated delete request that is the response, the handler does not
    run and the volume is untouched. *)
Theorem validateFilename_non_string (v : qvalue) :
  (∀ s, v ≠ QString s) ->
  validateFilename (Some v) = Respond InvalidParameter ∧
  status InvalidParameter = 400 ∧
  ∀ m token vol,
    authenticate (env m) token = Next tt ->
    delete_delete m (DeleteRequest token (Some v)) vol =
    Outcome InvalidParameter vol [ran_authenticate; ran_validateFilename].
Proof.
  intros Hv.
  assert (H : validateFilename (Some v) = Respond InvalidParameter).
  { destruct v as [s|l|l]; [by destruct (Hv s) | done | done]. }
  split; [exact H|]. split; [reflexivity|].
  intros m token vol Hauth. unfold delete_delete.
  cbn [del_authorization del_filename]. by rewrite Hauth, H.
Qed.

Lemma validateFilename_non_string_witness :
  validateFilename (Some (QArray [QString (lit "a.png"); QString (lit "b.png")]))
  = Respond InvalidParameter.
Proof.
  apply (validateFilename_non_string
           (QArray [QString (lit "a.png"); QString (lit "b.png")])).
  intros s. discriminate.
Defined.

(** ** The delete handler *)

Lemma existsSync_true (p : jsstring) (v : Fs.volume) :
  Fs.existsSync p v = true <-> ∃ i, v !! p = Some i.
Proof. unfold Fs.existsSync. by rewrite bool_decide_eq_true. Qed.

Lemma existsSync_false (p : jsstring) (v : Fs.volume) :
  Fs.existsSync p v = false <-> v !! p = None.
Proof.
  unfold Fs.existsSync. rewrite bool_decide_eq_false, <- eq_None_not_Some. done.
Qed.

Lemma unlinkSync_removes (p : jsstring) (v v' : Fs.volume) :
  Fs.unlinkSync p v = inr v' -> v' = delete p v ∧ v' !! p = None.
Proof.
  unfold Fs.unlinkSync. repeat case_match; try discriminate.
  intros [= <-]. split; [done | apply lookup_delete_eq].
Qed.

(** C7, as stated, fails when the target exists, the removal is not denied
    and yet does not succeed: [filename=.] names the storage directory
    itself, the removal fails with EISDIR, and the answer is 500 with the
    volume unchanged. *)
Lemma delete_directory_counterexample :
  let req := DeleteRequest Sample.bearer (Some (QString (lit "."))) in
  let target := delete_target Sample.m (lit ".") in
  let o := delete_delete Sample.m req Sample.vol in
  authenticate (env Sample.m) (del_authorization req) = Next tt ∧
  validateFilename (del_filename req) = Next (lit ".") ∧
  Fs.existsSync target Sample.vol = true ∧
  Fs.unlinkSync target Sample.vol = inl (Fs.throw Fs.EISDIR) ∧
  sent o = DeleteFailed ∧ status (sent o) = 500 ∧
  volume_after o = Sample.vol.
Proof. by_running. Qed.

(** C7, amended: on an authenticated, validated delete request, a target
    path that does not exist is answered 404 FileNotFound; a removal the
    system refuses with EACCES is answered 403 PermissionDenied; a removal
    that fails in any other way is answered 500 and removes nothing; and
    when the removal succeeds the file is gone and the 200 response
    {message, filename, size} carries the size measured before removal. *)
Theorem delete_cases (m : module) (token : option jsstring)
  (q : option qvalue) (filename : jsstring) (v : Fs.volume) :
  authenticate (env m) token = Next tt ->
  validateFilename q = Next filename ->
  let o := delete_delete m (DeleteRequest token q) v in
  let target := delete_target m filename in
  (Fs.existsSync target v = false ->
   sent o = FileNotFound ∧ status (sent o) = 404 ∧ volume_after o = v) ∧
  (Fs.existsSync target v = true ->
   Fs.unlinkSync target v = inl (Fs.throw Fs.EACCES) ->
   sent o = PermissionDenied ∧ status (sent o) = 403 ∧ volume_after o = v) ∧
  (∀ error, Fs.existsSync target v = true ->
   Fs.unlinkSync target v = inl error ->
   code error ≠ Some (lit "EACCES") ->
   sent o = DeleteFailed ∧ status (sent o) = 500 ∧ volume_after o = v) ∧
  (∀ stats v', Fs.statSync target v = inr stats ->
   Fs.unlinkSync target v = inr v' ->
   sent o = Response 200
              [("message"%string, JString (lit "File successfully deleted"));
               ("filename"%string, JString filename);
               ("size"%string, JNumber (Fs.size stats))] ∧
   v !! target = Some stats ∧
   volume_after o = v' ∧ v' = delete target v ∧
   Fs.existsSync target v' = false).
Proof.
  intros Hauth Hval o target. subst o.
  unfold delete_delete. cbn [del_authorization del_filename].
  rewrite Hauth, Hval. unfold delete_handler. fold target.
  split; [|split; [|split]].
  - intros Hex. by rewrite Hex.
  - intros Hex Hunlink. rewrite Hex. cbn [negb].
    apply existsSync_true in Hex as [i Hi].
    unfold Fs.statSync. by rewrite Hi, Hunlink.
  - intros error Hex Hunlink Hcode. rewrite Hex. cbn [negb].
    apply existsSync_true in Hex as [i Hi].
    unfold Fs.statSync. rewrite Hi, Hunlink.
    unfold delete_catch. by rewrite bool_decide_eq_false_2.
  - intros stats v' Hstat Hunlink.
    assert (Hi : v !! target = Some stats).
    { unfold Fs.statSync in Hstat. destruct (v !! target); by inversion Hstat. }
    assert (Hex : Fs.existsSync target v = true) by (apply existsSync_true; eauto).
    rewrite Hex, Hstat, Hunlink. cbn [negb sent volume_after].
    apply unlinkSync_removes in Hunlink as [Hv' Hgone].
    repeat split; try done. by apply existsSync_false.
Qed.

Lemma delete_cases_witness :
  let name := lit "123e4567-e89b-12d3-a456-426614174000.JPG" in
  let o := delete_delete Sample.m
             (DeleteRequest Sample.bearer (Some (QString name))) Sample.vol in
  sent o = Response 200
             [("message"%string, JString (lit "File successfully deleted"));
              ("filename"%string, JString name);
              ("size"%string, JNumber 2048576)] ∧
  Fs.existsSync (delete_target Sample.m name) (volume_after o) = false.
Proof.
  cbv zeta.
  destruct (delete_cases Sample.m Sample.bearer
              (Some (QString (lit "123e4567-e89b-12d3-a456-426614174000.JPG")))
              (lit "123e4567-e89b-12d3-a456-426614174000.JPG") Sample.vol)
    as (_ & _ & _ & Hok).
  - vm_compute. reflexivity.
  - vm_compute. reflexivity.
  - destruct (Hok (Fs.regular 2048576)
                (delete (delete_target Sample.m
                           (lit "123e4567-e89b-12d3-a456-426614174000.JPG"))
                        Sample.vol))
      as (Hsent & _ & Hvol & _ & Hgone).
    + vm_compute. reflexivity.
    + apply (bool_decide_unpack _). vm_compute. exact I.
    + split; [exact Hsent|]. rewrite Hvol. exact Hgone.
Defined.

(** ** The multipart layer as the upload route configures it *)

Section Upload.

Variable m : module.
Variable uuidv4 : nat -> jsstring.

(** The first file part of a request, case by case. *)
Lemma on_file_first (p : Multer.part) (v : Fs.volume) :
  Multer.on_file (upload m uuidv4) (lit "file") (Multer.Run 0 1 [] None 0 v) p =
  if bool_decide (Multer.part_filename p = []) then
    inr (Multer.Run 1 1 [] None 0 v)
  else if bool_decide (Multer.part_fieldname p ≠ lit "file") then
    inl (Multer.LIMIT_UNEXPECTED_FILE (Multer.part_fieldname p), v)
  else if negb (includes allowedMimeTypes (Multer.part_mimeType p)) then
    inl (Error "Unsupported file type", v)
  else
    match Fs.mkdirSync (storageDir m) v with
    | inl e => inl (e, v)
    | inr v1 =>
        match Fs.writeFile (stored_path m uuidv4 p)
                (N.min (Multer.part_length p) (10 * 1024 * 1024)) v1 with
        | inl e => inl (e, v1)
        | inr v2 =>
            if 10 * 1024 * 1024 <=? Multer.part_length p then
              inl (Multer.LIMIT_FILE_SIZE (Multer.part_fieldname p),
                   Multer.removeUploadedFiles [stored_file m uuidv4 p] v2)
            else
              inr (Multer.Run 1 0 [stored_file m uuidv4 p] (Some (stored_file m uuidv4 p)) 1 v2)
        end
    end.
Proof.
  unfold Multer.on_file.
  cbn [Multer.nfiles Multer.filesLeft Multer.uploadedFiles Multer.reqfile
       Multer.draws Multer.disk upload Multer.opt_files Multer.opt_fileFilter
       Multer.opt_destination Multer.opt_filename Multer.opt_fileSize].
  change (0 =? 1) with false. cbv iota.
  case_bool_decide; [reflexivity|].
  case_bool_decide; [reflexivity|].
  cbn [orb]. change (1 =? 0) with false. cbv iota.
  unfold fileFilter. cbn [Multer.info_mimetype].
  destruct (includes allowedMimeTypes (Multer.part_mimeType p)); cbn [negb];
    [|reflexivity].
  unfold storage_destination.
  destruct (Fs.mkdirSync (storageDir m) v) as [e|v1]; [reflexivity|].
  unfold storage_filename. cbn [Multer.info_originalname].
  fold (stored_name uuidv4 p). fold (stored_path m uuidv4 p).
  destruct (Fs.writeFile _ _ v1) as [e|v2]; [reflexivity|].
  reflexivity.
Qed.

(** Once one file part has been counted, any further one hits the limit
    of one file per request. *)
Lemma on_file_second (st : Multer.run) (p : Multer.part) :
  Multer.nfiles st = 1 ->
  Multer.on_file (upload m uuidv4) (lit "file") st p =
  inl (Multer.abort (Multer.LIMIT_FILE_COUNT (Multer.part_fieldname p)) st).
Proof. intros H. unfold Multer.on_file. rewrite H. reflexivity. Qed.

Lemma on_file_first_counts (p : Multer.part) (v : Fs.volume) (st : Multer.run) :
  Multer.on_file (upload m uuidv4) (lit "file") (Multer.Run 0 1 [] None 0 v) p
  = inr st ->
  Multer.nfiles st = 1.
Proof.
  rewrite on_file_first.
  repeat case_match; try discriminate; by intros [= <-].
Qed.

End Upload.

Lemma errorHandler_limits (field : jsstring) :
  errorHandler (Multer.LIMIT_FILE_SIZE field) = UploadTooLarge ∧
  errorHandler (Multer.LIMIT_FILE_COUNT field) = TooManyFiles ∧
  errorHandler (Multer.LIMIT_UNEXPECTED_FILE field) = UnexpectedField.
Proof. repeat split. Qed.

Lemma errorHandler_plain_Error (msg : string) :
  errorHandler (Error msg) = InternalServerError.
Proof. reflexivity. Qed.

Section UploadRoute.

Variable m : module.
Variable uuidv4 : nat -> jsstring.

Lemma single_cons (p : Multer.part) (rest : list Multer.part) (v : Fs.volume) :
  Multer.single (upload m uuidv4) (lit "file") (p :: rest) v =
  match Multer.on_file (upload m uuidv4) (lit "file")
          (Multer.Run 0 1 [] None 0 v) p with
  | inl (e, v') => (Raise e, v')
  | inr st =>
      match rest with
      | [] => (Next (Multer.reqfile st), Multer.disk st)
      | p' :: _ =>
          (Raise (Multer.LIMIT_FILE_COUNT (Multer.part_fieldname p')),
           Multer.removeUploadedFiles (Multer.uploadedFiles st) (Multer.disk st))
      end
  end.
Proof.
  unfold Multer.single. cbn [Multer.on_parts].
  destruct (Multer.on_file _ _ _ p) as [[e v']|st] eqn:Hp; [reflexivity|].
  destruct rest as [|p' rest]; [reflexivity|].
  cbn [Multer.on_parts].
  rewrite (on_file_second m uuidv4 st p') by (eapply on_file_first_counts; eauto).
  reflexivity.
Qed.

(** An authenticated request whose multipart layer raises [err]. *)
Lemma post_upload_raise (token : option jsstring) (parts : list Multer.part)
  (v v' : Fs.volume) (err : jserror) :
  authenticate (env m) token = Next tt ->
  Multer.single (upload m uuidv4) (lit "file") parts v = (Raise err, v') ->
  post_upload m uuidv4 (UploadRequest token parts) v =
  Outcome (errorHandler err) v'
          [ran_authenticate; ran_upload_single; ran_errorHandler].
Proof.
  intros Hauth Hsingle. unfold post_upload.
  cbn [up_authorization up_parts]. by rewrite Hauth, Hsingle.
Qed.

(** The first file part is of a type outside the allow-list. *)
Lemma post_upload_unsupported (token : option jsstring) (p : Multer.part)
  (rest : list Multer.part) (v : Fs.volume) :
  authenticate (env m) token = Next tt ->
  Multer.part_filename p ≠ [] ->
  Multer.part_fieldname p = lit "file" ->
  includes allowedMimeTypes (Multer.part_mimeType p) = false ->
  post_upload m uuidv4 (UploadRequest token (p :: rest)) v =
  Outcome InternalServerError v
          [ran_authenticate; ran_upload_single; ran_errorHandler].
Proof.
  intros Hauth Hname Hfield Htype.
  rewrite (post_upload_raise token (p :: rest) v v (Error "Unsupported file type"));
    [done | done |].
  rewrite single_cons, on_file_first.
  rewrite bool_decide_eq_false_2 by done.
  rewrite bool_decide_eq_false_2 by (intros H; by apply H).
  by rewrite Htype.
Qed.

End UploadRoute.

(** C2: the code does not do what the claim says. An authenticated upload
    of [setup.exe], declared as application/x-msdownload, is turned down by
    the file filter of the multipart layer with a plain error; the error
    handler knows no such error and answers 500 "Internal server error",
    not 400 UnsupportedFileType. The upload validator, which would answer
    400 for that type, never runs. Nothing is written to the volume. *)
Theorem unsupported_type_is_answered_500 :
  let req := UploadRequest Sample.bearer [Sample.installer] in
  let o := post_upload Sample.m Sample.uuidv4 req Sample.vol in
  authenticate (env Sample.m) (up_authorization req) = Next tt ∧
  includes allowedMimeTypes (Multer.part_mimeType Sample.installer) = false ∧
  sent o = InternalServerError ∧
  status (sent o) = 500 ∧
  sent o ≠ UnsupportedFileType ∧
  volume_after o = Sample.vol ∧
  stages o = [ran_authenticate; ran_upload_single; ran_errorHandler] ∧
  validateFileUpload
    (Some (stored_file Sample.m Sample.uuidv4 Sample.installer))
  = Respond UnsupportedFileType.
Proof.
  cbv zeta.
  rewrite (post_upload_unsupported Sample.m Sample.uuidv4 Sample.bearer
             Sample.installer [] Sample.vol);
    [| reflexivity | discriminate | reflexivity | reflexivity].
  repeat split. discriminate.
Qed.


(** ** [path.extname] *)

Section Extname.

Import Path.

Lemma scan_step_endPos (st : scan) (i : Z) (c : N) :
  (endPos (scan_step st i c) = endPos st ∨
   (endPos st = -1 ∧ endPos (scan_step st i c) = i + 1))%Z.
Proof.
  unfold scan_step.
  destruct (stopped st); [by left|].
  destruct (c =? slash); [destruct (negb (matchedSlash st)); by left|].
  destruct (endPos st =? -1)%Z eqn:E.
  - apply Z.eqb_eq in E. right. split; [done|].
    repeat case_match; reflexivity.
  - left. repeat case_match; reflexivity.
Qed.

Lemma scan_step_startDot (st : scan) (i : Z) (c : N) :
  (startDot (scan_step st i c) = startDot st ∨
   (startDot st = -1 ∧ startDot (scan_step st i c) = i ∧ c = dot ∧
    endPos (scan_step st i c) ≠ -1 ∨ i = -2))%Z.
Proof.
  unfold scan_step.
  destruct (stopped st); [by left|].
  destruct (c =? slash); [destruct (negb (matchedSlash st)); by left|].
  destruct (c =? dot) eqn:D.
  - apply N.eqb_eq in D.
    destruct (startDot st =? -1)%Z eqn:S0.
    + apply Z.eqb_eq in S0.
      destruct (endPos st =? -1)%Z eqn:E; cbn.
      * destruct (decide (i = -2)%Z); [by right; right|].
        right. left. repeat split; try done. lia.
      * apply Z.eqb_neq in E. right. left. done.
    + left. repeat case_match; reflexivity.
  - left. repeat case_match; reflexivity.
Qed.

Lemma scan_step_inv (k : Z) (done : jsstring) (st : scan) (c : N) :
  (0 <= k)%Z ->
  scan_inv (k + 1) done st -> scan_inv k (c :: done) (scan_step st k c).
Proof.
  intros Hk [He Hs]. unfold scan_inv.
  pose proof (scan_step_endPos st k c) as HE.
  pose proof (scan_step_startDot st k c) as HS.
  cbn [length]. split.
  - intros Hne. destruct HE as [HE | [HE0 HE]]; [rewrite HE in *|]; lia.
  - intros Hne. destruct HS as [HS | [(HS0 & HS & -> & HE') | ?]]; [| |lia].
    + rewrite HS in *. destruct (Hs Hne) as [Hb Hl].
      destruct HE as [HE | [HE0 HE]]; [rewrite HE|]; [|lia].
      split; [lia|].
      replace (Z.to_nat (startDot st - k)) with (S (Z.to_nat (startDot st - (k + 1))))
        by lia.
      exact Hl.
    + rewrite HS. split.
      * destruct HE as [HE | [HE0 HE]]; [|lia].
        rewrite HE in *. specialize (He HE'). lia.
      * by replace (Z.to_nat (k - k)) with 0%nat by lia.
Qed.

Lemma scan_from_inv (rest done : jsstring) (st : scan) :
  scan_inv (Z.of_nat (length rest)) done st ->
  scan_inv 0 (rev rest ++ done) (scan_from rest (Z.of_nat (length rest) - 1) st).
Proof.
  revert done st. induction rest as [|c rest IH]; intros done st Hinv.
  - exact Hinv.
  - cbn [scan_from rev length].
    replace (Z.of_nat (S (length rest)) - 1)%Z with (Z.of_nat (length rest)) by lia.
    rewrite <- app_assoc. cbn [app]. apply IH.
    apply scan_step_inv; [lia|].
    by replace (Z.of_nat (length rest) + 1)%Z with (Z.of_nat (S (length rest))) by lia.
Qed.

(** The extension is empty or begins with the dot. *)
Lemma extname_dot (path : jsstring) :
  extname path = [] ∨ ∃ e, extname path = dot :: e.
Proof.
  unfold extname.
  pose proof (scan_from_inv (rev path) [] scan0) as Hinv.
  rewrite length_rev, rev_involutive, app_nil_r in Hinv.
  set (st := scan_from (rev path) (Z.of_nat (length path) - 1) scan0) in *.
  destruct (_ || _) eqn:Hcond; [by left|]. right.
  rewrite !orb_false_iff in Hcond. destruct Hcond as [[[Hs He] _] _].
  apply Z.eqb_neq in Hs, He.
  destruct Hinv as [_ Hdot]; [split; cbn; done|].
  destruct (Hdot Hs) as [Hb Hl].
  rewrite Z.sub_0_r in Hl. unfold slice.
  rewrite (drop_S _ _ _ Hl).
  replace (Z.to_nat (endPos st - startDot st))
    with (S (Z.to_nat (endPos st - startDot st - 1))) by lia.
  cbn [take]. eauto.
Qed.

(** The extension is a piece of the name as it stands, letter case
    included. *)
Lemma extname_verbatim (path : jsstring) :
  ∃ pre post, path = pre ++ extname path ++ post.
Proof.
  unfold extname. destruct (_ || _).
  - exists path, []. by rewrite app_nil_r.
  - unfold slice. eexists (take _ path), (drop _ (drop _ path)).
    by rewrite !take_drop.
Qed.

(** The scan once a dot at index [k] has been marked with something
    before it: the marks stay where they are. *)
Lemma scan_step_marked (st : scan) (i : Z) (c : N) (k e0 : Z) :
  (k ≠ -1 -> e0 ≠ -1 ->
   startDot st = k ∧ endPos st = e0 ∧ preDotState st ≠ 0 ->
   startDot (scan_step st i c) = k ∧ endPos (scan_step st i c) = e0 ∧
   preDotState (scan_step st i c) ≠ 0)%Z.
Proof.
  intros Hk He (Hs & Hend & Hp).
  destruct st as [sd sp ep ms pds stp]. cbn in Hs, Hend, Hp. subst sd ep.
  unfold scan_step.
  cbn [stopped endPos startDot matchedSlash preDotState startPart].
  destruct stp; [done|].
  destruct (c =? slash); [by destruct ms|].
  rewrite (proj2 (Z.eqb_neq e0 (-1)) He), (proj2 (Z.eqb_neq k (-1)) Hk).
  cbn [negb]. destruct (c =? dot); [|done].
  by destruct (pds =? 1)%Z eqn:H1.
Qed.

Lemma scan_from_marked (r : jsstring) (st : scan) (i k e0 : Z) :
  (k ≠ -1 -> e0 ≠ -1 ->
   startDot st = k ∧ endPos st = e0 ∧ preDotState st ≠ 0 ->
   startDot (scan_from r i st) = k ∧ endPos (scan_from r i st) = e0 ∧
   preDotState (scan_from r i st) ≠ 0)%Z.
Proof.
  intros Hk He. revert st i. induction r as [|c r IH]; intros st i Hst; [done|].
  cbn [scan_from]. apply IH. by apply scan_step_marked.
Qed.

(** The scan over the letters of the extension, before any dot. *)
Lemma scan_from_letters (r : jsstring) (i e0 : Z) :
  e0 ≠ (-1)%Z -> dot ∉ r -> slash ∉ r ->
  scan_from r i (Scan (-1) 0 e0 false 0 false) = Scan (-1) 0 e0 false 0 false.
Proof.
  intros He. revert i. induction r as [|c r IH]; intros i Hdot Hslash; [done|].
  apply not_elem_of_cons in Hdot as [Hd Hdot], Hslash as [Hs Hslash].
  cbn [scan_from].
  assert (scan_step (Scan (-1) 0 e0 false 0 false) i c =
          Scan (-1) 0 e0 false 0 false) as ->; [|by apply IH].
  unfold scan_step.
  cbn [stopped endPos startDot matchedSlash preDotState startPart].
  rewrite (proj2 (N.eqb_neq c slash)), (proj2 (N.eqb_neq c dot)) by congruence.
  by rewrite (proj2 (Z.eqb_neq e0 (-1)) He).
Qed.

Lemma scan_from_app (a b : jsstring) (i : Z) (st : scan) :
  scan_from (a ++ b) i st =
  scan_from b (i - Z.of_nat (length a)) (scan_from a i st).
Proof.
  revert i st. induction a as [|c a IH]; intros i st.
  - cbn. f_equal. lia.
  - cbn [app scan_from length]. rewrite IH. f_equal. lia.
Qed.

(** A name that ends in a dot and letters, with something other than a
    separator before the dot, has the dot and the letters as extension. *)
Lemma extname_suffix (stem : jsstring) (c : N) (e : jsstring) :
  c ≠ slash -> e ≠ [] -> dot ∉ e -> slash ∉ e ->
  extname (stem ++ c :: dot :: e) = dot :: e.
Proof.
  intros Hc He Hdot Hslash.
  assert (Hlen : (0 < Z.of_nat (length e))%Z) by (destruct e; [done | cbn; lia]).
  set (name := stem ++ c :: dot :: e).
  set (k := (Z.of_nat (length stem) + 1)%Z).
  set (e0 := Z.of_nat (length name)).
  assert (He0 : e0 = (k + 1 + Z.of_nat (length e))%Z).
  { subst e0 k name. rewrite length_app. cbn [length]. lia. }
  assert (Hrev : rev name = rev e ++ dot :: c :: rev stem).
  { subst name. rewrite rev_app_distr. cbn [rev]. by rewrite <- !app_assoc. }
  assert (Hfirst : scan_from (rev e) (e0 - 1) scan0 = Scan (-1) 0 e0 false 0 false).
  { destruct (rev e) as [|y r] eqn:Hr.
    - apply (f_equal (@length N)) in Hr. rewrite length_rev in Hr. cbn in Hr. lia.
    - assert (Hds : (dot ∉ y :: r) ∧ (slash ∉ y :: r)).
      { rewrite <- Hr.
        split; intros Hin; apply list_elem_of_In, In_rev, list_elem_of_In in Hin;
          done. }
      destruct Hds as [Hd Hs].
      apply not_elem_of_cons in Hd as [Hd Hd'], Hs as [Hs Hs'].
      cbn [scan_from].
      assert (scan_step scan0 (e0 - 1) y = Scan (-1) 0 e0 false 0 false) as ->;
        [|apply scan_from_letters; [lia | done | done]].
      unfold scan_step, scan0.
      cbn [stopped endPos startDot matchedSlash preDotState startPart].
      rewrite (proj2 (N.eqb_neq y slash)), (proj2 (N.eqb_neq y dot)) by congruence.
      cbn. f_equal. lia. }
  assert (Hmarked :
    let st := scan_from (rev name) (e0 - 1) scan0 in
    (startDot st = k ∧ endPos st = e0 ∧ preDotState st ≠ 0)%Z).
  { cbv zeta. rewrite Hrev, scan_from_app, Hfirst. cbn [scan_from].
    apply scan_from_marked; [lia | lia |].
    rewrite length_rev.
    replace (e0 - 1 - Z.of_nat (length e))%Z with k by lia.
    assert (scan_step (Scan (-1) 0 e0 false 0 false) k dot =
            Scan k 0 e0 false 0 false) as ->.
    { unfold scan_step.
      cbn [stopped endPos startDot matchedSlash preDotState startPart].
      rewrite N.eqb_refl.
      rewrite (proj2 (N.eqb_neq dot slash)) by discriminate.
      by rewrite (proj2 (Z.eqb_neq e0 (-1))) by lia. }
    unfold scan_step.
    cbn [stopped endPos startDot matchedSlash preDotState startPart].
    rewrite (proj2 (N.eqb_neq c slash)) by done.
    rewrite (proj2 (Z.eqb_neq e0 (-1))), (proj2 (Z.eqb_neq k (-1))) by lia.
    by destruct (c =? dot). }
  unfold extname. fold name e0. cbv zeta in Hmarked.
  destruct Hmarked as (Hs & Hend & Hp). rewrite Hs, Hend.
  rewrite (proj2 (Z.eqb_neq k (-1))), (proj2 (Z.eqb_neq e0 (-1))) by lia.
  rewrite (proj2 (Z.eqb_neq _ 0) Hp).
  rewrite (proj2 (Z.eqb_neq k (e0 - 1))) by lia.
  rewrite andb_false_r. cbn [orb andb].
  unfold slice.
  replace (Z.to_nat k) with (length (stem ++ [c])) by (rewrite length_app; cbn; lia).
  subst name. replace (stem ++ c :: dot :: e) with ((stem ++ [c]) ++ dot :: e)
    by (by rewrite <- app_assoc).
  rewrite drop_app_length.
  apply take_ge. cbn [length]. lia.
Qed.

End Extname.

(** ** A successful upload *)

Lemma authenticate_respond_401 (e : environment) (token : option jsstring)
  (r : response) :
  authenticate e token = Respond r -> status r = 401.
Proof.
  unfold authenticate. repeat case_match; try discriminate; by intros [= <-].
Qed.

Lemma errorHandler_not_200 (err : jserror) : status (errorHandler err) ≠ 200.
Proof.
  pose proof (errorHandler_status err) as H. intros Heq. rewrite Heq in H.
  repeat (apply elem_of_cons in H as [H|H]; [discriminate|]).
  by apply elem_of_nil in H.
Qed.

Lemma writeFile_stores (p : jsstring) (n : N) (v v' : Fs.volume) :
  Fs.writeFile p n v = inr v' ->
  ∃ i, v' !! p = Some i ∧ Fs.size i = n ∧ Fs.isDirectory i = false.
Proof.
  unfold Fs.writeFile. repeat case_match; try discriminate; intros [= <-];
    rewrite lookup_insert_eq; eauto.
Qed.

(** What a 200 answer to an upload tells: the one file part of the request
    was meant for the route, within the size limit, and went to disk. *)
Lemma upload_accepted (m : module) (uuidv4 : nat -> jsstring)
  (req : upload_request) (v : Fs.volume) :
  status (sent (post_upload m uuidv4 req v)) = 200 ->
  ∃ p v1 v2,
    up_parts req = [p] ∧
    authenticate (env m) (up_authorization req) = Next tt ∧
    expected_part p = true ∧
    Multer.part_length p < 10 * 1024 * 1024 ∧
    Fs.mkdirSync (storageDir m) v = inr v1 ∧
    Fs.writeFile (stored_path m uuidv4 p) (Multer.part_length p) v1 = inr v2 ∧
    post_upload m uuidv4 req v =
    Outcome (upload_handler m (stored_file m uuidv4 p)) v2
            [ran_authenticate; ran_upload_single; ran_validateFileUpload;
             ran_handler].
Proof.
  destruct req as [token parts]. unfold post_upload.
  cbn [up_authorization up_parts].
  destruct (authenticate (env m) token) as [[]|r|[]] eqn:Hauth.
  2:{ cbn. intros H. apply authenticate_respond_401 in Hauth. congruence. }
  destruct parts as [|p rest]; [discriminate|].
  rewrite single_cons, on_file_first.
  case_bool_decide as Hname.
  { destruct rest; [discriminate|]. intros H. by apply errorHandler_not_200 in H. }
  case_bool_decide as Hfield.
  { intros H. by apply errorHandler_not_200 in H. }
  destruct (includes allowedMimeTypes (Multer.part_mimeType p)) eqn:Htype; cbn [negb].
  2:{ intros H. by apply errorHandler_not_200 in H. }
  destruct (Fs.mkdirSync (storageDir m) v) as [e|v1].
  { intros H. by apply errorHandler_not_200 in H. }
  destruct (Fs.writeFile _ _ v1) as [e|v2] eqn:Hwrite.
  { intros H. by apply errorHandler_not_200 in H. }
  destruct (10 * 1024 * 1024 <=? Multer.part_length p) eqn:Hsize.
  { intros H. by apply errorHandler_not_200 in H. }
  destruct rest as [|p' rest].
  2:{ intros H. by apply errorHandler_not_200 in H. }
  intros _. apply N.leb_gt in Hsize.
  rewrite N.min_l in Hwrite by lia.
  exists p, v1, v2.
  cbn [Multer.reqfile Multer.disk validateFileUpload stored_file Multer.mimetype].
  rewrite Htype. cbn [negb andb].
  repeat split; try done.
  unfold expected_part.
  rewrite (bool_decide_eq_false_2 _ Hname), (bool_decide_eq_true_2 _ Hfield).
  by rewrite Htype.
Qed.

(** C6: when an upload succeeds (200), the request carried one file part;
    the stored name is the identifier drawn from the random source followed
    by the extension [path.extname] finds in the original name. That
    extension is empty or starts with the dot, is taken from the name as it
    stands, and for a name ending in a dot and letters (with something
    other than a separator before the dot) it is that dot and those
    letters. The filePath of the response is the base URL, then [/files/],
    then the stored name; and the file is on the volume under that name in
    the storage directory, with the size the response reports. *)
Theorem upload_success_name (m : module) (uuidv4 : nat -> jsstring)
  (req : upload_request) (v : Fs.volume) :
  status (sent (post_upload m uuidv4 req v)) = 200 ->
  ∃ p, up_parts req = [p] ∧
    let ext := Path.extname (Multer.part_filename p) in
    let name := uuidv4 0%nat ++ ext in
    sent (post_upload m uuidv4 req v) =
      Response 200
        [("filePath"%string, JString (baseUrl (env m) ++ lit "/files/" ++ name));
         ("filename"%string, JString name);
         ("originalname"%string, JString (Multer.part_filename p));
         ("size"%string, JNumber (Multer.part_length p));
         ("mimetype"%string, JString (Multer.part_mimeType p))] ∧
    (ext = [] ∨ ∃ e, ext = Path.dot :: e) ∧
    (∃ pre post, Multer.part_filename p = pre ++ ext ++ post) ∧
    (∀ stem c e,
       Multer.part_filename p = stem ++ c :: Path.dot :: e ->
       c ≠ Path.slash -> e ≠ [] -> Path.dot ∉ e -> Path.slash ∉ e ->
       ext = Path.dot :: e) ∧
    ∃ i, volume_after (post_upload m uuidv4 req v)
           !! Path.join [storageDir m; name] = Some i ∧
         Fs.size i = Multer.part_length p ∧ Fs.isDirectory i = false.
Proof.
  intros (p & v1 & v2 & Hparts & _ & _ & Hsize & _ & Hwrite & ->)%upload_accepted.
  exists p. split; [exact Hparts|].
  cbn [sent volume_after]. unfold upload_handler, BASE_URL.
  cbn [stored_file Multer.filename Multer.originalname Multer.size Multer.mimetype].
  rewrite N.min_l by lia.
  split; [reflexivity|].
  split; [apply extname_dot|].
  split; [apply extname_verbatim|].
  split; [intros stem c e ->; apply extname_suffix|].
  by apply writeFile_stores in Hwrite.
Qed.

Lemma upload_success_name_witness :
  ∃ p, [Sample.photo] = [p] ∧
    sent (post_upload Sample.m Sample.uuidv4
            (UploadRequest Sample.bearer [Sample.photo]) ∅) =
      Response 200
        [("filePath"%string,
           JString (baseUrl (env Sample.m) ++ lit "/files/" ++
                    Sample.uuidv4 0%nat ++ Path.extname (Multer.part_filename p)));
         ("filename"%string,
           JString (Sample.uuidv4 0%nat ++ Path.extname (Multer.part_filename p)));
         ("originalname"%string, JString (Multer.part_filename p));
         ("size"%string, JNumber (Multer.part_length p));
         ("mimetype"%string, JString (Multer.part_mimeType p))].
Proof.
  destruct (upload_success_name Sample.m Sample.uuidv4
              (UploadRequest Sample.bearer [Sample.photo]) ∅)
    as (p & Hp & Hsent & _).
  - vm_compute. reflexivity.
  - exists p. split; [exact Hp | exact Hsent].
Defined.

(** ** The limits of the multipart layer *)




(** [mkdirSync] only adds directories, where nothing was; it fails with
    EEXIST, ENOTDIR or EACCES only. *)
Lemma mkdirSync_spec (p : jsstring) (v : Fs.volume) :
  match Fs.mkdirSync p v with
  | inr v' =>
      ∀ q, v' !! q = v !! q ∨ (v !! q = None ∧ v' !! q = Some Fs.directory)
  | inl e => e = Fs.throw Fs.EEXIST ∨ e = Fs.throw Fs.ENOTDIR ∨
             e = Fs.throw Fs.EACCES
  end.
Proof.
  unfold Fs.mkdirSync. generalize (Fs.lineage p). intros l.
  set (I := fun acc : jserror + Fs.volume * option Fs.inode =>
              match acc with
              | inr (v', _) =>
                  ∀ q, v' !! q = v !! q ∨
                       (v !! q = None ∧ v' !! q = Some Fs.directory)
              | inl e => e = Fs.throw Fs.EEXIST ∨ e = Fs.throw Fs.ENOTDIR ∨
                         e = Fs.throw Fs.EACCES
              end).
  assert (HI : I (foldl (Fs.mkdir_step p) (inr (v, None)) l)).
  { assert (I (inr (v, None))) as Hstart by (intros q; by left).
    revert Hstart.
    generalize (inr (v, None) : jserror + Fs.volume * option Fs.inode).
    induction l as [|d l IH]; intros acc Hacc; [exact Hacc|].
    cbn [foldl]. apply IH. destruct acc as [e|[v' above]]; [exact Hacc|].
    unfold Fs.mkdir_step. destruct (v' !! d) as [i|] eqn:Hd.
    - destruct (Fs.isDirectory i); [exact Hacc|].
      cbn. case_bool_decide; [by left | right; by left].
    - destruct (match above with Some a => Fs.readonly a | None => false end).
      + cbn. right. by right.
      + intros q. destruct (decide (d = q)) as [<-|Hne].
        * rewrite lookup_insert_eq. right. split; [|done].
          destruct (Hacc d) as [<- | [? _]]; done.
        * rewrite lookup_insert_ne by done. apply Hacc. }
  destruct (foldl (Fs.mkdir_step p) (inr (v, None)) l) as [e|[v' above]];
    exact HI.
Qed.

Lemma writeFile_spec (p : jsstring) (n : N) (v : Fs.volume) :
  match Fs.writeFile p n v with
  | inr v' =>
      (∃ prot, v' = <[p := Fs.Inode n false prot false]> v ∧
               ∀ i, v !! p = Some i -> Fs.protected i = prot ∧
                                        Fs.isDirectory i = false) ∧
      (v !! p = None -> v' = <[p := Fs.regular n]> v)
  | inl e => ∃ en, e = Fs.throw en ∧ en ≠ Fs.EEXIST
  end.
Proof.
  unfold Fs.writeFile. destruct (v !! p) as [i|] eqn:Hi.
  - destruct (Fs.isDirectory i) eqn:Hdir; [by exists Fs.EISDIR|].
    destruct (Fs.readonly i); [by exists Fs.EACCES|].
    split; [|done]. exists (Fs.protected i). split; [done|].
    by intros ? [= <-].
  - unfold Fs.create. case_bool_decide.
    + split; [|done]. exists false. by split.
    + destruct (v !! Fs.holder p) as [d|]; [|by exists Fs.ENOENT].
      destruct (Fs.isDirectory d); cbn [negb]; [|by exists Fs.ENOTDIR].
      destruct (Fs.readonly d); [by exists Fs.EACCES|].
      split; [|done]. exists false. by split.
Qed.


(** The upload route on an authenticated request, case by case. *)
Lemma post_upload_cases (m : module) (uuidv4 : nat -> jsstring)
  (token : option jsstring) (parts : list Multer.part) (v : Fs.volume) :
  authenticate (env m) token = Next tt ->
  post_upload m uuidv4 (UploadRequest token parts) v =
  let rejected r v' :=
    Outcome r v' [ran_authenticate; ran_upload_single; ran_errorHandler] in
  let no_file :=
    Outcome NoFileUploaded v
            [ran_authenticate; ran_upload_single; ran_validateFileUpload] in
  match parts with
  | [] => no_file
  | p :: rest =>
      if bool_decide (Multer.part_filename p = []) then
        match rest with
        | [] => no_file
        | _ :: _ => rejected TooManyFiles v
        end
      else if bool_decide (Multer.part_fieldname p ≠ lit "file") then
        rejected UnexpectedField v
      else if negb (includes allowedMimeTypes (Multer.part_mimeType p)) then
        rejected InternalServerError v
      else
        match Fs.mkdirSync (storageDir m) v with
        | inl e => rejected (errorHandler e) v
        | inr v1 =>
            match Fs.writeFile (stored_path m uuidv4 p)
                    (N.min (Multer.part_length p) (10 * 1024 * 1024)) v1 with
            | inl e => rejected (errorHandler e) v1
            | inr v2 =>
                let cleaned :=
                  Multer.removeUploadedFiles [stored_file m uuidv4 p] v2 in
                if 10 * 1024 * 1024 <=? Multer.part_length p then
                  rejected UploadTooLarge cleaned
                else
                  match rest with
                  | [] =>
                      Outcome (upload_handler m (stored_file m uuidv4 p)) v2
                        [ran_authenticate; ran_upload_single;
                         ran_validateFileUpload; ran_handler]
                  | _ :: _ => rejected TooManyFiles cleaned
                  end
            end
        end
  end.
Proof.
  intros Hauth. unfold post_upload. cbn [up_authorization up_parts].
  rewrite Hauth. cbv zeta.
  destruct parts as [|p rest]; [reflexivity|].
  rewrite single_cons, on_file_first.
  case_bool_decide as Hname; [by destruct rest|].
  case_bool_decide as Hfield; [reflexivity|].
  destruct (includes allowedMimeTypes (Multer.part_mimeType p)) eqn:Htype;
    cbn [negb]; [|reflexivity].
  destruct (Fs.mkdirSync (storageDir m) v) as [e|v1]; [reflexivity|].
  destruct (Fs.writeFile _ _ v1) as [e|v2]; [reflexivity|].
  destruct (10 * 1024 * 1024 <=? Multer.part_length p); [reflexivity|].
  destruct rest as [|p' rest]; [|reflexivity].
  cbn [Multer.reqfile Multer.disk validateFileUpload stored_file Multer.mimetype].
  by rewrite Htype.
Qed.



(** The three answers of the limits are told apart from every other answer
    of the route. *)
Lemma limit_answers_differ :
  UploadTooLarge ≠ TooManyFiles ∧ UploadTooLarge ≠ UnexpectedField ∧
  TooManyFiles ≠ UnexpectedField ∧
  (∀ r, r ∈ [UploadTooLarge; TooManyFiles; UnexpectedField] ->
        r ≠ NoFileUploaded ∧ r ≠ InternalServerError ∧ r ≠ PermissionDenied ∧
        r ≠ FileNotFound_requested ∧ status r ≠ 200 ∧ status r ≠ 401).
Proof.
  repeat apply conj; try discriminate.
  intros r Hr.
  repeat (apply elem_of_cons in Hr as [->|Hr]; [repeat apply conj; discriminate|]).
  by apply elem_of_nil in Hr.
Qed.






(** ** [path.join] *)

Section Join.

Import Path.

Lemma split_not_nil (s : jsstring) : split s ≠ [].
Proof. destruct s as [|c s]; cbn; repeat case_match; discriminate. Qed.

Lemma split_app_slash (a b : jsstring) :
  split (a ++ slash :: b) = split a ++ split b.
Proof.
  induction a as [|c a IH]; [reflexivity|].
  cbn [app split]. destruct (c =? slash); [by rewrite IH|].
  rewrite IH. pose proof (split_not_nil a).
  by destruct (split a).
Qed.

Lemma split_plain (s : jsstring) : slash ∉ s -> split s = [s].
Proof.
  induction s as [|c s IH]; [reflexivity|].
  intros Hs. cbn [split].
  rewrite not_elem_of_cons in Hs. destruct Hs as [Hc Hs].
  destruct (N.eqb_spec c slash) as [->|_]; [done|].
  by rewrite IH.
Qed.

Lemma split_slash_free (s : jsstring) : Forall (fun seg => slash ∉ seg) (split s).
Proof.
  induction s as [|c s IH]; cbn [split].
  - repeat constructor. apply not_elem_of_nil.
  - destruct (N.eqb_spec c slash) as [->|Hc].
    + constructor; [apply not_elem_of_nil | done].
    + destruct (split s) as [|seg segs]; inversion IH; subst.
      * repeat constructor. by rewrite list_elem_of_singleton.
      * constructor; [|done]. rewrite not_elem_of_cons. split; [congruence|done].
Qed.

Lemma split_unsplit (segs : list jsstring) :
  segs ≠ [] -> Forall (fun seg => slash ∉ seg) segs ->
  split (unsplit segs) = segs.
Proof.
  induction segs as [|seg segs IH]; [done|]. intros _ Hfree.
  inversion Hfree as [|? ? Hseg Hsegs]; subst.
  destruct segs as [|seg' segs]; [by apply split_plain|].
  change (unsplit (seg :: seg' :: segs))
    with (seg ++ slash :: unsplit (seg' :: segs)).
  rewrite split_app_slash, split_plain by done.
  by rewrite IH.
Qed.

Lemma unsplit_snoc (l : list jsstring) (f : jsstring) :
  l ≠ [] -> unsplit (l ++ [f]) = unsplit l ++ slash :: f.
Proof.
  induction l as [|a l IH]; [done|]. intros _.
  destruct l as [|b l]; [reflexivity|].
  change (unsplit ((a :: b :: l) ++ [f]))
    with (a ++ slash :: unsplit ((b :: l) ++ [f])).
  rewrite IH by done.
  change (unsplit (a :: b :: l)) with (a ++ slash :: unsplit (b :: l)).
  by rewrite <- app_assoc.
Qed.

(** The scan goes through the segments from left to right. *)
Lemma normalizeString_app (allow : bool) (a b res : list jsstring) :
  normalizeString allow (a ++ b) res =
  normalizeString allow b (normalizeString allow a res).
Proof.
  revert res. induction a as [|seg a IH]; intros res; [reflexivity|].
  cbn [app normalizeString]. repeat case_match; apply IH.
Qed.

Lemma normalizeString_plain (allow : bool) (l acc : list jsstring) :
  Forall plain l -> normalizeString allow l acc = rev l ++ acc.
Proof.
  revert acc. induction l as [|seg l IH]; intros acc Hl; [reflexivity|].
  inversion Hl as [|? ? (H0 & H1 & H2 & _) Hl']; subst.
  cbn [normalizeString rev].
  rewrite !bool_decide_eq_false_2 by done. cbn [orb].
  rewrite IH by done. by rewrite <- app_assoc.
Qed.

Lemma normalizeString_ups (n k : nat) :
  normalizeString true (replicate n [dot; dot]) (replicate k [dot; dot]) =
  replicate (n + k) [dot; dot].
Proof.
  revert k. induction n as [|n IH]; intros k; [reflexivity|].
  cbn [replicate normalizeString].
  rewrite !(bool_decide_eq_false_2 ([dot; dot] = _)) by discriminate.
  rewrite (bool_decide_eq_true_2 ([dot; dot] = [dot; dot])) by done.
  cbn [orb]. destruct k as [|k]; cbn [replicate].
  - change [[dot; dot]] with (replicate 1 [dot; dot]).
    rewrite IH. f_equal. lia.
  - rewrite (bool_decide_eq_true_2 ([dot; dot] = [dot; dot])) by done.
    change ([dot; dot] :: [dot; dot] :: replicate k [dot; dot])
      with (replicate (S (S k)) [dot; dot]).
    rewrite IH. f_equal. lia.
Qed.

Lemma rev_replicate {A} (n : nat) (x : A) : rev (replicate n x) = replicate n x.
Proof.
  induction n as [|n IH]; [reflexivity|].
  cbn [replicate rev]. rewrite IH. symmetry. apply replicate_cons_app.
Qed.

Lemma kept_nil (allow : bool) : kept allow [].
Proof. exists [], 0%nat. by repeat split. Qed.

Lemma normalizeString_kept (allow : bool) (segs res : list jsstring) :
  Forall (fun seg => slash ∉ seg) segs ->
  kept allow res -> kept allow (normalizeString allow segs res).
Proof.
  revert res. induction segs as [|seg segs IH]; intros res Hfree Hres; [done|].
  inversion Hfree as [|? ? Hseg Hfree']; subst.
  cbn [normalizeString].
  destruct (bool_decide (seg = []) || bool_decide (seg = [dot])) eqn:Hskip;
    [by apply IH|].
  apply orb_false_iff in Hskip as [H0 H1].
  apply bool_decide_eq_false in H0, H1.
  case_bool_decide as Hup.
  - subst seg. destruct Hres as (body & k & -> & Hbody & Hk).
    destruct body as [|b body].
    + destruct k as [|k]; cbn [app replicate].
      * apply IH; [done|]. destruct allow; [|apply kept_nil].
        exists [], 1%nat. by repeat split.
      * rewrite bool_decide_eq_true_2 by done. apply IH; [done|].
        destruct allow.
        -- exists [], (S (S k)). by repeat split.
        -- exists [], (S k). by repeat split.
    + inversion Hbody as [|? ? Hb Hbody']; subst. cbn [app].
      rewrite bool_decide_eq_false_2 by apply Hb.
      apply IH; [done|]. by exists body, k.
  - apply IH; [done|]. destruct Hres as (body & k & -> & Hbody & Hk).
    exists (seg :: body), k. repeat split; try done.
    constructor; [|done]. by repeat split.
Qed.

(** Segments that were kept are kept again, all of them. *)
Lemma normalizeString_replay (allow : bool) (res : list jsstring) :
  kept allow res -> normalizeString allow (rev res) [] = res.
Proof.
  intros (body & k & -> & Hbody & Hk).
  rewrite rev_app_distr, rev_replicate, normalizeString_app.
  assert (normalizeString allow (replicate k [dot; dot]) [] =
          replicate k [dot; dot]) as ->.
  { destruct allow.
    - change (@nil jsstring) with (replicate 0 [dot; dot]).
      rewrite normalizeString_ups. f_equal. lia.
    - by rewrite Hk. }
  rewrite normalizeString_plain.
  - by rewrite rev_involutive.
  - apply Forall_forall. intros x Hx.
    rewrite list_elem_of_In, <- In_rev, <- list_elem_of_In in Hx.
    by eapply Forall_forall in Hbody.
Qed.

Lemma kept_segments (allow : bool) (res : list jsstring) :
  kept allow res -> Forall (fun seg => seg ≠ [] ∧ slash ∉ seg) res.
Proof.
  intros (body & k & -> & Hbody & _). apply Forall_app. split.
  - eapply Forall_impl; [exact Hbody|]. by intros seg (? & _ & _ & ?).
  - apply Forall_replicate. split; [discriminate|].
    rewrite !not_elem_of_cons. repeat split; try discriminate.
    apply not_elem_of_nil.
Qed.

Lemma unsplit_cons_head (c : N) (a : jsstring) (l : list jsstring) :
  ∃ t, unsplit ((c :: a) :: l) = c :: t.
Proof. destruct l; eexists; reflexivity. Qed.

Lemma normalizeString_skip_empty (allow : bool) (l res : list jsstring) :
  normalizeString allow ([] :: l) res = normalizeString allow l res.
Proof. reflexivity. Qed.

(** Normalising a path keeps it absolute or relative, and normalising
    the result again keeps every segment. *)
Lemma normalize_stack (X : jsstring) :
  X ≠ [] ->
  isAbsolute (normalize X) = isAbsolute X ∧
  normalize X ≠ [] ∧
  normalizeString (negb (isAbsolute X)) (split (normalize X)) [] =
  normalizeString (negb (isAbsolute X)) (split X) [].
Proof.
  destruct X as [|c X]; [done|]. intros _.
  unfold normalize. cbn [isAbsolute].
  set (allow := negb (c =? slash)).
  set (st := normalizeString allow (split (c :: X)) []).
  set (trailing := match last (c :: X) with Some d => d =? slash | None => false end).
  assert (Hkept : kept allow st).
  { apply normalizeString_kept; [apply split_slash_free | apply kept_nil]. }
  pose proof (kept_segments _ _ Hkept) as Hsegs.
  pose proof (normalizeString_replay _ _ Hkept) as Hreplay.
  destruct (rev st) as [|seg0 segs0] eqn:Hrev.
  - assert (st = []) as Hst.
    { rewrite <- (rev_involutive st), Hrev. reflexivity. }
    rewrite Hst. cbn [unsplit].
    destruct (c =? slash) eqn:Hc; [by repeat split|].
    destruct trailing; by repeat split.
  - assert (Hfree : Forall (fun seg => slash ∉ seg) (seg0 :: segs0)).
    { rewrite <- Hrev. apply Forall_forall. intros x Hx.
      rewrite list_elem_of_In, <- In_rev, <- list_elem_of_In in Hx.
      eapply Forall_forall in Hsegs; [|exact Hx]. apply Hsegs. }
    assert (Hseg0 : seg0 ≠ [] ∧ slash ∉ seg0).
    { assert (seg0 ∈ st) as Hin.
      { rewrite list_elem_of_In, In_rev, Hrev. by left. }
      eapply Forall_forall in Hsegs; [|exact Hin]. exact Hsegs. }
    destruct seg0 as [|c0 t0]; [by destruct Hseg0|].
    destruct Hseg0 as [_ Hc0]. apply not_elem_of_cons in Hc0 as [Hc0 _].
    assert (Hc0' : (c0 =? slash) = false) by (apply N.eqb_neq; congruence).
    pose proof (split_unsplit ((c0 :: t0) :: segs0) ltac:(done) Hfree) as Hsplit.
    destruct (unsplit_cons_head c0 t0 segs0) as [tl Hp].
    rewrite Hp in *.
    assert (Hresplit : ∀ p', split p' = (c0 :: t0) :: segs0 ∨
                             split p' = ((c0 :: t0) :: segs0) ++ [[]] ->
             normalizeString allow (split p') [] = st).
    { intros p' [-> | ->].
      - exact Hreplay.
      - rewrite normalizeString_app, Hreplay. reflexivity. }
    assert (Hp' : split (if trailing then (c0 :: tl) ++ [slash] else c0 :: tl)
                  = (c0 :: t0) :: segs0 ∨
                  split (if trailing then (c0 :: tl) ++ [slash] else c0 :: tl)
                  = ((c0 :: t0) :: segs0) ++ [[]]).
    { destruct trailing; [right | by left].
      by rewrite split_app_slash, Hsplit. }
    destruct (c =? slash) eqn:Hc.
    + split; [reflexivity|]. split; [discriminate|].
      change (split (slash :: ?p)) with ([] :: split p).
      rewrite normalizeString_skip_empty. by apply Hresplit.
    + split; [by destruct trailing|]. split; [by destruct trailing|].
      by apply Hresplit.
Qed.

Lemma normalize_congr (Y1 Y2 f : jsstring) :
  Y1 ≠ [] -> Y2 ≠ [] ->
  isAbsolute Y1 = isAbsolute Y2 ->
  normalizeString (negb (isAbsolute Y2)) (split Y1) [] =
  normalizeString (negb (isAbsolute Y2)) (split Y2) [] ->
  normalize (Y1 ++ slash :: f) = normalize (Y2 ++ slash :: f).
Proof.
  destruct Y1 as [|c1 Y1]; [done|]. destruct Y2 as [|c2 Y2]; [done|].
  intros _ _ Habs Hstack. cbn [isAbsolute] in Habs, Hstack.
  unfold normalize. cbn [app].
  change (c1 :: Y1 ++ slash :: f) with ((c1 :: Y1) ++ slash :: f).
  change (c2 :: Y2 ++ slash :: f) with ((c2 :: Y2) ++ slash :: f).
  rewrite !last_app, !split_app_slash, !normalizeString_app.
  rewrite Habs, Hstack.
  destruct (last (slash :: f)) eqn:Hlast; [reflexivity|].
  by apply last_None in Hlast.
Qed.

Lemma unsplit_not_nil (l : list jsstring) :
  l ≠ [] -> Forall (fun a => a ≠ []) l -> unsplit l ≠ [].
Proof.
  destruct l as [|a l]; [done|]. intros _ Hl.
  inversion Hl as [|? ? Ha _]; subst.
  destruct a as [|c a]; [done|].
  destruct (unsplit_cons_head c a l) as [t ->]. discriminate.
Qed.

Lemma join_filtered (xs : list jsstring) :
  filter (fun a : jsstring => a ≠ []) xs ≠ [] ->
  join xs = normalize (unsplit (filter (fun a : jsstring => a ≠ []) xs)).
Proof. unfold join. by destruct (filter _ xs). Qed.

(** Joining in two steps gives the same path as joining at once. *)
Lemma join_assoc (xs : list jsstring) (f : jsstring) :
  f ≠ [] -> (∃ x, x ∈ xs ∧ x ≠ []) ->
  join (xs ++ [f]) = join [join xs; f].
Proof.
  intros Hf (x & Hx & Hxne).
  set (l := filter (fun a : jsstring => a ≠ []) xs).
  assert (Hl : l ≠ []).
  { intros Hnil. assert (x ∈ l) as Hin by (by apply list_elem_of_filter).
    rewrite Hnil in Hin. by apply elem_of_nil in Hin. }
  assert (HX : unsplit l ≠ []).
  { apply unsplit_not_nil; [done|]. apply Forall_forall.
    intros y Hy. by apply list_elem_of_filter in Hy as [? _]. }
  destruct (normalize_stack (unsplit l) HX) as (Habs & Hne & Hstack).
  rewrite (join_filtered xs Hl). fold l.
  rewrite !join_filtered.
  - rewrite filter_app. fold l.
    rewrite (filter_cons_True _ (normalize (unsplit l))) by done.
    rewrite !(filter_cons_True _ f) by done. rewrite filter_nil.
    rewrite unsplit_snoc by done.
    change (unsplit [?a; ?b]) with (a ++ slash :: b).
    symmetry. by apply normalize_congr.
  - rewrite (filter_cons_True _ (normalize (unsplit l))) by done. discriminate.
  - rewrite filter_app. fold l. by destruct l.
Qed.

End Join.

(** The path the delete handler works on is the storage directory joined
    with the file name. *)
Lemma delete_target_join (m : module) (filename : jsstring) :
  filename ≠ [] ->
  delete_target m filename = Path.join [storageDir m; filename].
Proof.
  intros Hf. unfold delete_target, storageDir.
  apply (join_assoc [__dirname m; lit ".."; VOLUME_PATH m] filename Hf).
  exists (lit ".."). split; [|discriminate].
  apply elem_of_cons. right. apply elem_of_cons. by left.
Qed.

Lemma validateFilename_next (q : option qvalue) (filename : jsstring) :
  validateFilename q = Next filename ->
  ∃ s, q = Some (QString s) ∧ filename = trim s ∧ filename ≠ [].
Proof.
  destruct q as [[s|l|l]|]; try discriminate.
  rewrite validateFilename_string.
  repeat case_bool_decide; try discriminate.
  intros [= <-]. eauto.
Qed.

Lemma join_not_nil (xs : list jsstring) : Path.join xs ≠ [].
Proof.
  unfold Path.join.
  destruct (filter _ xs) as [|a l] eqn:Hl; [discriminate|].
  apply normalize_stack, unsplit_not_nil; [done|].
  rewrite <- Hl. apply Forall_forall.
  intros y Hy. by apply list_elem_of_filter in Hy as [? _].
Qed.

(** C9: the delete handler works on the plain join of the storage
    directory with the trimmed filename. The validator lets every value
    through that trimming leaves non-empty, separators and [..] included;
    the handler answers 404 exactly when nothing lies at the joined path,
    and removes whatever regular file lies there. A filename [../name]
    is joined like the two segments [..] and [name]; on the sample
    deployment [../secret.env] names a file next to the storage directory,
    and the request removes it. *)
Theorem delete_path_unguarded (m : module) (token : option jsstring)
  (q : option qvalue) (filename : jsstring) (v : Fs.volume) :
  authenticate (env m) token = Next tt ->
  validateFilename q = Next filename ->
  let o := delete_delete m (DeleteRequest token q) v in
  let target := Path.join [storageDir m; filename] in
  (∃ s, q = Some (QString s) ∧ filename = trim s) ∧
  (∀ s, trim s ≠ [] -> validateFilename (Some (QString s)) = Next (trim s)) ∧
  Path.join [__dirname m; lit ".."; VOLUME_PATH m; filename] = target ∧
  stages o = [ran_authenticate; ran_validateFilename; ran_handler] ∧
  (sent o = FileNotFound <-> v !! target = None) ∧
  (∀ n, v !! target = Some (Fs.regular n) ->
        status (sent o) = 200 ∧ volume_after o = delete target v) ∧
  (∀ name, name ≠ [] -> filename = lit "../" ++ name ->
        target = Path.join [storageDir m; lit ".."; name]) ∧
  (let escape := DeleteRequest Sample.bearer (Some (QString (lit "../secret.env"))) in
   storageDir Sample.m = lit "/app/src/uploads" ∧
   Path.join [storageDir Sample.m; lit "../secret.env"] = lit "/app/src/secret.env" ∧
   Sample.vol !! lit "/app/src/secret.env" = Some (Fs.regular 64) ∧
   status (sent (delete_delete Sample.m escape Sample.vol)) = 200 ∧
   volume_after (delete_delete Sample.m escape Sample.vol)
     = delete (lit "/app/src/secret.env") Sample.vol).
Proof.
  intros Hauth Hval o target.
  destruct (validateFilename_next q filename Hval) as (s & Hq & Hs & Hne).
  pose proof (delete_target_join m filename Hne) as Htarget.
  fold target in Htarget.
  assert (Ho : o = Outcome (delete_handler m filename v).1
                           (delete_handler m filename v).2
                           [ran_authenticate; ran_validateFilename; ran_handler]).
  { subst o. unfold delete_delete. cbn [del_authorization del_filename].
    rewrite Hauth, Hval. by destruct (delete_handler m filename v). }
  split; [by exists s|].
  split.
  { intros s' Hs'. rewrite validateFilename_string.
    rewrite (bool_decide_eq_false_2 (trim s' = [])) by done.
    rewrite bool_decide_eq_false_2; [done|]. intros ->. by apply Hs'. }
  split; [exact Htarget|].
  split; [by rewrite Ho|].
  split.
  { rewrite Ho. cbn [sent]. unfold delete_handler. rewrite Htarget.
    unfold Fs.existsSync, Fs.statSync, Fs.unlinkSync.
    destruct (v !! target) as [i|] eqn:Hi.
    - rewrite bool_decide_eq_true_2 by eauto. cbn [negb].
      split; [|discriminate].
      unfold delete_catch. repeat case_match; discriminate.
    - rewrite bool_decide_eq_false_2 by (by intros [? ?]). done. }
  split.
  { intros n Hn. rewrite Ho. cbn [sent volume_after].
    unfold delete_handler. rewrite Htarget.
    unfold Fs.existsSync, Fs.statSync, Fs.unlinkSync. rewrite Hn.
    rewrite bool_decide_eq_true_2 by eauto. done. }
  split.
  { intros name Hname ->. subst target.
    rewrite !join_filtered.
    - rewrite !filter_cons_True by (done || apply join_not_nil).
      rewrite filter_nil.
      destruct (storageDir m) as [|c t] eqn:HS; [by destruct (join_not_nil _ HS)|].
      cbn [Path.unsplit]. reflexivity.
    - rewrite filter_cons_True by apply join_not_nil. discriminate.
    - rewrite filter_cons_True by apply join_not_nil. discriminate. }
  by_running.
Qed.

Lemma delete_path_unguarded_witness :
  let q := Some (QString (lit " ../secret.env ")) in
  Path.join [__dirname Sample.m; lit ".."; VOLUME_PATH Sample.m; lit "../secret.env"]
  = Path.join [storageDir Sample.m; lit "../secret.env"] ∧
  stages (delete_delete Sample.m (DeleteRequest Sample.bearer q) Sample.vol)
  = [ran_authenticate; ran_validateFilename; ran_handler].
Proof.
  cbv zeta.
  destruct (delete_path_unguarded Sample.m Sample.bearer
              (Some (QString (lit " ../secret.env "))) (lit "../secret.env")
              Sample.vol)
    as (_ & _ & Hjoin & Hstages & _).
  - vm_compute. reflexivity.
  - vm_compute. reflexivity.
  - split; [exact Hjoin | exact Hstages].
Defined.

(** * Further properties of the routes *)

(** ** What the filename validator hands on *)

Lemma trimStart_head (s : jsstring) (c : N) (t : jsstring) :
  trimStart s = c :: t -> is_space c = false.
Proof.
  induction s as [|d s IH]; [discriminate|]. cbn [trimStart].
  destruct (is_space d) eqn:Hd; [exact IH|]. by intros [= <- _].
Qed.

Lemma trimStart_fixed (s : jsstring) :
  (∀ c, head s = Some c -> is_space c = false) -> trimStart s = s.
Proof.
  destruct s as [|c s]; [done|]. intros H. cbn [trimStart].
  by rewrite (H c eq_refl).
Qed.

(** What [trimStart] drops is a run of spaces in front. *)
Lemma trimStart_split (s : jsstring) :
  ∃ pre, s = pre ++ trimStart s ∧ Forall (fun c => is_space c = true) pre.
Proof.
  induction s as [|d s (pre & Hs & Hpre)]; [by exists []|].
  cbn [trimStart]. destruct (is_space d) eqn:Hd.
  - exists (d :: pre). split; [by rewrite Hs at 1 | by constructor].
  - by exists [].
Qed.

Lemma trimEnd_split (s : jsstring) :
  ∃ post, s = trimEnd s ++ post ∧ Forall (fun c => is_space c = true) post.
Proof.
  unfold trimEnd. destruct (trimStart_split (rev s)) as (pre & Hs & Hpre).
  exists (rev pre). split.
  - rewrite <- rev_app_distr, <- Hs. by rewrite rev_involutive.
  - apply Forall_forall. intros c Hc.
    rewrite list_elem_of_In, <- In_rev, <- list_elem_of_In in Hc.
    by eapply Forall_forall in Hpre.
Qed.

Lemma trimEnd_last (s : jsstring) (c : N) :
  last (trimEnd s) = Some c -> is_space c = false.
Proof.
  unfold trimEnd. destruct (trimStart (rev s)) as [|d t] eqn:Ht; [discriminate|].
  cbn [rev]. rewrite last_snoc. intros [= <-]. by eapply trimStart_head.
Qed.

(** Cutting spaces at the end leaves a first code unit that is no space
    where it is. *)
Lemma trimEnd_head (s : jsstring) (c : N) :
  (∀ d, head s = Some d -> is_space d = false) ->
  head (trimEnd s) = Some c -> is_space c = false.
Proof.
  intros Hs Hc. destruct (trimEnd_split s) as (post & Heq & _).
  destruct (trimEnd s) as [|d t]; [discriminate|]. injection Hc as ->.
  apply (Hs c). rewrite Heq. reflexivity.
Qed.

Lemma trim_head (s : jsstring) (c : N) :
  head (trim s) = Some c -> is_space c = false.
Proof.
  unfold trim. apply trimEnd_head. intros d Hd.
  destruct (trimStart s) as [|d' t] eqn:Ht; [discriminate|].
  injection Hd as ->. by eapply trimStart_head.
Qed.

Lemma trimEnd_fixed (s : jsstring) :
  (∀ c, last s = Some c -> is_space c = false) -> trimEnd s = s.
Proof.
  intros H. unfold trimEnd. rewrite trimStart_fixed; [apply rev_involutive|].
  intros c Hc. apply H. destruct (rev s) as [|d t] eqn:Hr; [discriminate|].
  injection Hc as ->. rewrite <- (rev_involutive s), Hr. cbn [rev].
  apply last_snoc.
Qed.

(** Trimming a trimmed string changes nothing. *)
Lemma trim_trim (s : jsstring) : trim (trim s) = trim s.
Proof.
  unfold trim at 1. rewrite trimStart_fixed by (intros c; apply trim_head).
  apply trimEnd_fixed. intros c. unfold trim. apply trimEnd_last.
Qed.

(** X1: the value the filename validator hands to the delete handler is
    never empty, neither begins nor ends with white space, and passes the
    validator again unchanged. *)
Theorem validateFilename_trimmed (q : option qvalue) (filename : jsstring) :
  validateFilename q = Next filename ->
  filename ≠ [] ∧
  (∀ c, head filename = Some c -> is_space c = false) ∧
  (∀ c, last filename = Some c -> is_space c = false) ∧
  validateFilename (Some (QString filename)) = Next filename.
Proof.
  intros (s & _ & -> & Hne)%validateFilename_next.
  split; [exact Hne|]. split; [intros c; apply trim_head|].
  split; [intros c; unfold trim; apply trimEnd_last|].
  rewrite validateFilename_string, trim_trim.
  by rewrite !bool_decide_eq_false_2.
Qed.

Lemma validateFilename_trimmed_witness :
  lit "a b.txt" ≠ [] ∧
  validateFilename (Some (QString (lit "a b.txt"))) = Next (lit "a b.txt").
Proof.
  destruct (validateFilename_trimmed (Some (QString (lit "  a b.txt  ")))
              (lit "a b.txt")) as (Hne & _ & _ & Hagain).
  - vm_compute. reflexivity.
  - split; [exact Hne | exact Hagain].
Defined.

(** ** The volume under an upload *)


(** X3: an authenticated upload without a file (no file part at all, or a
    single part that carries no file name) is answered 400 NoFileUploaded
    by the upload validator, and the volume is left as it was. *)
Theorem upload_without_file (m : module) (uuidv4 : nat -> jsstring)
  (token : option jsstring) (parts : list Multer.part) (v : Fs.volume) :
  authenticate (env m) token = Next tt ->
  parts = [] ∨ (∃ p, parts = [p] ∧ Multer.part_filename p = []) ->
  post_upload m uuidv4 (UploadRequest token parts) v =
  Outcome NoFileUploaded v
          [ran_authenticate; ran_upload_single; ran_validateFileUpload] ∧
  status NoFileUploaded = 400.
Proof.
  intros Hauth Hparts. split; [|reflexivity].
  rewrite post_upload_cases by done.
  destruct Hparts as [-> | (p & -> & Hname)]; [reflexivity|].
  cbv zeta. by rewrite bool_decide_eq_true_2.
Qed.

Lemma upload_without_file_witness :
  sent (post_upload Sample.m Sample.uuidv4 (UploadRequest Sample.bearer [])
          Sample.vol) = NoFileUploaded.
Proof.
  destruct (upload_without_file Sample.m Sample.uuidv4 Sample.bearer []
              Sample.vol) as [-> _].
  - vm_compute. reflexivity.
  - left. reflexivity.
  - reflexivity.
Defined.

Lemma errorHandler_not_unsupported (err : jserror) :
  errorHandler err ≠ UnsupportedFileType.
Proof.
  intros H. apply (f_equal (fun r => head (body r))) in H.
  unfold errorHandler in H.
  repeat (case_match; try (vm_compute in H; discriminate)).
Qed.

(** X4: the upload route never answers 400 "Unsupported file type": that
    branch of the upload validator cannot be reached, since the multipart
    layer hands it only files whose type its own filter has allowed. *)
Theorem upload_never_unsupported (m : module) (uuidv4 : nat -> jsstring)
  (req : upload_request) (v : Fs.volume) :
  sent (post_upload m uuidv4 req v) ≠ UnsupportedFileType.
Proof.
  destruct req as [token parts].
  destruct (authenticate (env m) token) as [[]|r|[]] eqn:Hauth.
  - rewrite post_upload_cases by done. cbv zeta.
    repeat (case_match; try apply errorHandler_not_unsupported; try discriminate).
  - unfold post_upload. cbn [up_authorization]. rewrite Hauth. cbn [sent].
    intros ->. by apply authenticate_respond_401 in Hauth.
Qed.

(** Removing the one file an aborted request has written. *)
Lemma cleaned_spec (f : Multer.file) (v : Fs.volume) (q : jsstring) :
  Multer.removeUploadedFiles [f] v !! q = v !! q ∨
  (q = Multer.path f ∧ Multer.removeUploadedFiles [f] v !! q = None ∧
   ∃ i, v !! q = Some i ∧ Fs.protected i = false).
Proof.
  unfold Multer.removeUploadedFiles. cbn [foldl]. unfold Fs.unlinkSync.
  destruct (v !! Multer.path f) as [i|] eqn:Hi; [|by left].
  destruct (Fs.protected i) eqn:Hprot; [by left|].
  destruct (Fs.isDirectory i); [by left|].
  destruct (decide (q = Multer.path f)) as [->|Hne].
  - right. rewrite lookup_delete_eq. eauto.
  - left. by rewrite lookup_delete_ne.
Qed.

(** What the volume holds after an authenticated upload: the directories
    made for the storage directory and, when the request got that far, its
    one file, possibly removed again. *)
Lemma post_upload_volume (m : module) (uuidv4 : nat -> jsstring)
  (token : option jsstring) (parts : list Multer.part) (v : Fs.volume) :
  authenticate (env m) token = Next tt ->
  let o := post_upload m uuidv4 (UploadRequest token parts) v in
  volume_after o = v ∨
  ∃ v1, Fs.mkdirSync (storageDir m) v = inr v1 ∧
    (volume_after o = v1 ∨
     ∃ p rest v2, parts = p :: rest ∧
       Fs.writeFile (stored_path m uuidv4 p)
         (N.min (Multer.part_length p) (10 * 1024 * 1024)) v1 = inr v2 ∧
       ((volume_after o = v2 ∧ status (sent o) = 200) ∨
        (volume_after o = Multer.removeUploadedFiles [stored_file m uuidv4 p] v2 ∧
         status (sent o) ≠ 200))).
Proof.
  intros Hauth o. subst o. rewrite post_upload_cases by done. cbv zeta.
  destruct parts as [|p rest]; [by left|].
  case_bool_decide; [destruct rest; by left|].
  case_bool_decide; [by left|].
  destruct (negb _); [by left|].
  destruct (Fs.mkdirSync (storageDir m) v) as [e|v1]; [by left|].
  right. exists v1. split; [done|].
  destruct (Fs.writeFile _ _ v1) as [e|v2] eqn:Hw; [by left|].
  right. exists p, rest, v2. split; [done|]. split; [done|].
  destruct (10 * 1024 * 1024 <=? Multer.part_length p); [by right|].
  destruct rest; [by left | by right].
Qed.

Lemma written_then_cleaned (p : jsstring) (n : N) (f : Multer.file)
  (v1 v2 : Fs.volume) (q : jsstring) (i : Fs.inode) :
  Multer.path f = p ->
  Fs.writeFile p n v1 = inr v2 ->
  Multer.removeUploadedFiles [f] v2 !! q = Some i ->
  Fs.isDirectory i = false ->
  ∃ j, v1 !! q = Some j ∧ Fs.isDirectory j = false.
Proof.
  intros Hpath Hw Hq Hfile.
  pose proof (writeFile_spec p n v1) as Hspec. rewrite Hw in Hspec.
  destruct Hspec as [(prot & -> & Hold) Hnew].
  unfold Multer.removeUploadedFiles in Hq. cbn [foldl] in Hq.
  unfold Fs.unlinkSync in Hq. rewrite Hpath, lookup_insert_eq in Hq.
  cbn [Fs.protected Fs.isDirectory] in Hq.
  destruct (decide (p = q)) as [<-|Hne].
  - destruct (v1 !! p) as [j|] eqn:Hj.
    + exists j. split; [done|]. by apply Hold.
    + destruct prot.
      * specialize (Hnew eq_refl).
        apply (f_equal (fun w : Fs.volume => w !! p)) in Hnew.
        rewrite !lookup_insert_eq in Hnew. discriminate.
      * rewrite lookup_delete_eq in Hq. discriminate.
  - destruct prot.
    + rewrite lookup_insert_ne in Hq by done. eauto.
    + rewrite lookup_delete_ne, lookup_insert_ne in Hq by done. eauto.
Qed.

(** X5: an upload that is not answered 200, for whatever reason, leaves no
    new file behind: every regular file on the volume afterwards lies at a
    path that held a regular file before. Only directories may have been
    made. *)
Theorem rejected_upload_leaves_no_file (m : module) (uuidv4 : nat -> jsstring)
  (req : upload_request) (v : Fs.volume) (q : jsstring) (i : Fs.inode) :
  status (sent (post_upload m uuidv4 req v)) ≠ 200 ->
  volume_after (post_upload m uuidv4 req v) !! q = Some i ->
  Fs.isDirectory i = false ->
  ∃ j, v !! q = Some j ∧ Fs.isDirectory j = false.
Proof.
  destruct req as [token parts]. intros Hrej Hq Hfile.
  destruct (authenticate (env m) token) as [[]|r|[]] eqn:Hauth.
  2:{ unfold post_upload in Hq. cbn [up_authorization] in Hq.
      rewrite Hauth in Hq. eauto. }
  assert (Hdirs : ∀ v1 j, Fs.mkdirSync (storageDir m) v = inr v1 ->
            v1 !! q = Some j -> Fs.isDirectory j = false -> v !! q = Some j).
  { intros v1 j Hmk Hj Hjfile.
    pose proof (mkdirSync_spec (storageDir m) v) as Hspec. rewrite Hmk in Hspec.
    destruct (Hspec q) as [<- | [_ Hdir]]; [done|].
    rewrite Hdir in Hj. injection Hj as <-. discriminate. }
  destruct (post_upload_volume m uuidv4 token parts v Hauth)
    as [Hv | (v1 & Hmk & [Hv | (p & rest & v2 & _ & Hw & [[_ H200] | [Hv _]])])].
  - rewrite Hv in Hq. eauto.
  - rewrite Hv in Hq. eauto.
  - done.
  - rewrite Hv in Hq.
    destruct (written_then_cleaned (stored_path m uuidv4 p) _
                (stored_file m uuidv4 p) v1 v2 q i eq_refl Hw Hq Hfile)
      as (j & Hj & Hjfile).
    eauto.
Qed.

Lemma rejected_upload_leaves_no_file_witness :
  ∃ j, Sample.vol !! lit "/app/src/secret.env" = Some j ∧
       Fs.isDirectory j = false.
Proof.
  apply (rejected_upload_leaves_no_file Sample.m Sample.uuidv4
           (UploadRequest Sample.bearer [Sample.scan_11MiB]) Sample.vol
           (lit "/app/src/secret.env") (Fs.regular 64)).
  - vm_compute. discriminate.
  - vm_compute. reflexivity.
  - reflexivity.
Defined.

(** X6: an upload, accepted or not, touches no entry of the volume other
    than the path of its own new file: whatever lay elsewhere before the
    request lies there unchanged afterwards. *)
Theorem upload_keeps_other_entries (m : module) (uuidv4 : nat -> jsstring)
  (req : upload_request) (v : Fs.volume) (q : jsstring) (i : Fs.inode) :
  v !! q = Some i ->
  (∀ p, head (up_parts req) = Some p -> q ≠ stored_path m uuidv4 p) ->
  volume_after (post_upload m uuidv4 req v) !! q = Some i.
Proof.
  destruct req as [token parts]. cbn [up_parts]. intros Hq Hother.
  destruct (authenticate (env m) token) as [[]|r|[]] eqn:Hauth.
  2:{ unfold post_upload. cbn [up_authorization]. by rewrite Hauth. }
  assert (Hdirs : ∀ v1, Fs.mkdirSync (storageDir m) v = inr v1 -> v1 !! q = Some i).
  { intros v1 Hmk.
    pose proof (mkdirSync_spec (storageDir m) v) as Hspec. rewrite Hmk in Hspec.
    destruct (Hspec q) as [-> | [Hnone _]]; [done | congruence]. }
  destruct (post_upload_volume m uuidv4 token parts v Hauth)
    as [-> | (v1 & Hmk & [-> | (p & rest & v2 & -> & Hw & Hv)])]; [done | eauto |].
  specialize (Hother p eq_refl).
  pose proof (writeFile_spec (stored_path m uuidv4 p)
                (N.min (Multer.part_length p) (10 * 1024 * 1024)) v1) as Hspec.
  rewrite Hw in Hspec. destruct Hspec as [(prot & Hv2 & _) _].
  assert (Hq2 : v2 !! q = Some i).
  { rewrite Hv2, lookup_insert_ne by done. eauto. }
  destruct Hv as [[-> _] | [-> _]]; [done|].
  destruct (cleaned_spec (stored_file m uuidv4 p) v2 q) as [-> | (Heq & _)]; done.
Qed.

Lemma upload_keeps_other_entries_witness :
  volume_after (post_upload Sample.m Sample.uuidv4
                  (UploadRequest Sample.bearer [Sample.photo]) Sample.vol)
    !! lit "/app/src/secret.env" = Some (Fs.regular 64).
Proof.
  apply (upload_keeps_other_entries Sample.m Sample.uuidv4
           (UploadRequest Sample.bearer [Sample.photo]) Sample.vol).
  - vm_compute. reflexivity.
  - intros p [= <-]. vm_compute. discriminate.
Defined.




(** ** The volume under a delete *)

(** The delete handler, by what lies at the target path. *)
Lemma delete_handler_cases (m : module) (filename : jsstring) (v : Fs.volume) :
  delete_handler m filename v =
  match v !! delete_target m filename with
  | None => (FileNotFound, v)
  | Some i =>
      if Fs.protected i then (PermissionDenied, v)
      else if Fs.isDirectory i then (DeleteFailed, v)
      else (Response 200
              [("message"%string, JString (lit "File successfully deleted"));
               ("filename"%string, JString filename);
               ("size"%string, JNumber (Fs.size i))],
            delete (delete_target m filename) v)
  end.
Proof.
  unfold delete_handler, Fs.existsSync, Fs.statSync, Fs.unlinkSync.
  destruct (v !! delete_target m filename) as [i|] eqn:Hi.
  - rewrite bool_decide_eq_true_2 by eauto. cbn [negb].
    destruct (Fs.protected i); [reflexivity|].
    by destruct (Fs.isDirectory i).
  - rewrite bool_decide_eq_false_2 by (by intros [? ?]). reflexivity.
Qed.

Lemma validateFilename_respond_400 (q : option qvalue) (r : response) :
  validateFilename q = Respond r -> status r = 400.
Proof.
  unfold validateFilename. repeat case_match; try discriminate; by intros [= <-].
Qed.

(** What a 200 answer to a delete tells. *)
Lemma delete_accepted (m : module) (req : delete_request) (v : Fs.volume) :
  status (sent (delete_delete m req v)) = 200 ->
  authenticate (env m) (del_authorization req) = Next tt ∧
  ∃ filename i,
    validateFilename (del_filename req) = Next filename ∧
    v !! delete_target m filename = Some i ∧
    Fs.protected i = false ∧ Fs.isDirectory i = false.
Proof.
  unfold delete_delete.
  destruct (authenticate _ _) as [[]|r|[]] eqn:Hauth.
  2:{ cbn. intros H. apply authenticate_respond_401 in Hauth. congruence. }
  destruct (validateFilename _) as [filename|r|[]] eqn:Hval.
  2:{ cbn. intros H. apply validateFilename_respond_400 in Hval. congruence. }
  rewrite delete_handler_cases.
  destruct (v !! delete_target m filename) as [i|] eqn:Hi; [|discriminate].
  destruct (Fs.protected i) eqn:Hprot; [discriminate|].
  destruct (Fs.isDirectory i) eqn:Hdir; [discriminate|].
  intros _. split; [done|]. by exists filename, i.
Qed.

(** X8: a delete is answered 200 exactly when it passes the authenticator
    and the filename validator and the target path holds a regular file the
    process may remove. *)
Theorem delete_accepted_iff (m : module) (req : delete_request) (v : Fs.volume) :
  status (sent (delete_delete m req v)) = 200 <->
  authenticate (env m) (del_authorization req) = Next tt ∧
  ∃ filename i,
    validateFilename (del_filename req) = Next filename ∧
    v !! delete_target m filename = Some i ∧
    Fs.protected i = false ∧ Fs.isDirectory i = false.
Proof.
  split; [apply delete_accepted|].
  intros (Hauth & filename & i & Hval & Hi & Hprot & Hdir).
  unfold delete_delete.
  rewrite Hauth, Hval, delete_handler_cases, Hi, Hprot, Hdir. reflexivity.
Qed.

(** What a delete request does to the volume. *)
Lemma delete_volume (m : module) (req : delete_request) (v : Fs.volume) :
  volume_after (delete_delete m req v) = v ∨
  ∃ filename i,
    validateFilename (del_filename req) = Next filename ∧
    v !! delete_target m filename = Some i ∧
    Fs.protected i = false ∧ Fs.isDirectory i = false ∧
    volume_after (delete_delete m req v) = delete (delete_target m filename) v.
Proof.
  unfold delete_delete.
  destruct (authenticate _ _) as [[]|r|[]]; [|by left].
  destruct (validateFilename _) as [filename|r|[]] eqn:Hval; [|by left].
  rewrite delete_handler_cases.
  destruct (v !! delete_target m filename) as [i|] eqn:Hi; [|by left].
  destruct (Fs.protected i) eqn:Hprot; [by left|].
  destruct (Fs.isDirectory i) eqn:Hdir; [by left|].
  right. by exists filename, i.
Qed.

(** X9: a delete request, whatever its outcome, adds and changes nothing on
    the volume, never removes a directory or an entry the process may not
    remove, and removes at most one entry. *)
Theorem delete_frame (m : module) (req : delete_request) (v : Fs.volume) :
  let v' := volume_after (delete_delete m req v) in
  (∀ q i, v' !! q = Some i -> v !! q = Some i) ∧
  (∀ q i, v !! q = Some i ->
          Fs.isDirectory i = true ∨ Fs.protected i = true -> v' !! q = Some i) ∧
  (∀ q q', is_Some (v !! q) -> is_Some (v !! q') ->
           v' !! q = None -> v' !! q' = None -> q = q').
Proof.
  cbv zeta.
  destruct (delete_volume m req v)
    as [-> | (filename & i & _ & Hi & Hprot & Hdir & ->)].
  - repeat split; try done.
    intros q q' [? Hq] _ Hnone. congruence.
  - repeat split.
    + intros q j Hq. destruct (decide (delete_target m filename = q)) as [<-|Hne].
      * by rewrite lookup_delete_eq in Hq.
      * by rewrite lookup_delete_ne in Hq.
    + intros q j Hq Hkeep.
      destruct (decide (delete_target m filename = q)) as [<-|Hne].
      * rewrite Hi in Hq. injection Hq as <-. destruct Hkeep; congruence.
      * by rewrite lookup_delete_ne.
    + intros q q' [j Hq] [j' Hq'] Hnone Hnone'.
      destruct (decide (delete_target m filename = q)) as [<-|Hne];
        destruct (decide (delete_target m filename = q')) as [<-|Hne'];
        try done.
      * rewrite lookup_delete_ne in Hnone' by done. congruence.
      * rewrite lookup_delete_ne in Hnone by done. congruence.
      * rewrite lookup_delete_ne in Hnone by done. congruence.
Qed.

(** X10: deleting is not idempotent. When a delete request has been
    answered 200, the same request sent again is answered 404 FileNotFound
    and changes nothing. *)
Theorem delete_twice (m : module) (req : delete_request) (v : Fs.volume) :
  status (sent (delete_delete m req v)) = 200 ->
  let v' := volume_after (delete_delete m req v) in
  sent (delete_delete m req v') = FileNotFound ∧
  status (sent (delete_delete m req v')) = 404 ∧
  volume_after (delete_delete m req v') = v'.
Proof.
  intros (Hauth & filename & i & Hval & Hi & Hprot & Hdir)%delete_accepted.
  cbv zeta.
  assert (Hv' : volume_after (delete_delete m req v)
                = delete (delete_target m filename) v).
  { unfold delete_delete. rewrite Hauth, Hval, delete_handler_cases.
    by rewrite Hi, Hprot, Hdir. }
  rewrite Hv'. unfold delete_delete.
  rewrite Hauth, Hval, delete_handler_cases, lookup_delete_eq. done.
Qed.

Lemma delete_twice_witness :
  let req := DeleteRequest Sample.bearer
               (Some (QString (lit "123e4567-e89b-12d3-a456-426614174000.JPG"))) in
  sent (delete_delete Sample.m req
          (volume_after (delete_delete Sample.m req Sample.vol))) = FileNotFound.
Proof.
  cbv zeta.
  apply (delete_twice Sample.m
           (DeleteRequest Sample.bearer
              (Some (QString (lit "123e4567-e89b-12d3-a456-426614174000.JPG"))))
           Sample.vol).
  vm_compute. reflexivity.
Defined.

(** ** Upload, delete and download, one after the other *)

(** A separator in front of the last argument of [path.join] makes no
    difference. *)
Lemma join_leading_slash (S f : jsstring) :
  S ≠ [] -> Path.join [S; Path.slash :: f] = Path.join [S; f] ∨ f = [].
Proof.
  intros HS. destruct f as [|c f]; [by right|]. left.
  rewrite !join_filtered.
  - rewrite !filter_cons_True by done. rewrite filter_nil.
    cbn [Path.unsplit]. destruct S as [|d S]; [done|].
    unfold Path.normalize. cbn [app].
    change (d :: S ++ Path.slash :: ?x) with ((d :: S) ++ Path.slash :: x).
    rewrite !last_app, !split_app_slash, !normalizeString_app.
    change (Path.split (Path.slash :: c :: f)) with ([] :: Path.split (c :: f)).
    rewrite normalizeString_skip_empty.
    change (last (Path.slash :: Path.slash :: c :: f)) with (last (c :: f)).
    change (last (Path.slash :: c :: f)) with (last (c :: f)).
    reflexivity.
  - rewrite filter_cons_True by done. discriminate.
  - rewrite filter_cons_True by done. discriminate.
Qed.

(** The path the download check looks at for the URL [/files/<filename>]
    is the one the delete handler removes for that filename. *)
Lemma files_check_target (m : module) (filename : jsstring) :
  filename ≠ [] ->
  Path.join [Path.join [__dirname m; lit ".."; VOLUME_PATH m];
             Path.slash :: filename]
  = delete_target m filename.
Proof.
  intros Hf. rewrite delete_target_join by done. fold (storageDir m).
  destruct (join_leading_slash (storageDir m) filename) as [-> | ->]; try done.
  apply join_not_nil.
Qed.

(** The file a successful upload has left on the volume. *)
Lemma upload_stored_entry (m : module) (uuidv4 : nat -> jsstring)
  (req : upload_request) (v : Fs.volume) (p : Multer.part) :
  status (sent (post_upload m uuidv4 req v)) = 200 ->
  up_parts req = [p] ->
  ∃ prot,
    volume_after (post_upload m uuidv4 req v) !! stored_path m uuidv4 p
    = Some (Fs.Inode (Multer.part_length p) false prot false) ∧
    ((∀ i, v !! stored_path m uuidv4 p = Some i -> Fs.protected i = false) ->
     prot = false).
Proof.
  intros (p' & v1 & v2 & Hparts & _ & _ & Hsize & Hmk & Hw & ->)%upload_accepted
         Hp.
  rewrite Hparts in Hp. injection Hp as ->. cbn [volume_after].
  pose proof (writeFile_spec (stored_path m uuidv4 p) (Multer.part_length p) v1)
    as Hspec.
  rewrite Hw in Hspec. destruct Hspec as [(prot & -> & Hold) Hnew].
  exists prot. rewrite lookup_insert_eq. split; [done|]. intros Hfree.
  destruct (v1 !! stored_path m uuidv4 p) as [i|] eqn:Hi.
  - destruct (Hold i eq_refl) as [<- _].
    pose proof (mkdirSync_spec (storageDir m) v) as Hdirs. rewrite Hmk in Hdirs.
    destruct (Hdirs (stored_path m uuidv4 p)) as [Heq | [_ Hdir]].
    + apply Hfree. by rewrite <- Heq.
    + rewrite Hdir in Hi. by injection Hi as <-.
  - specialize (Hnew eq_refl).
    apply (f_equal (fun w : Fs.volume => w !! stored_path m uuidv4 p)) in Hnew.
    rewrite !lookup_insert_eq in Hnew. by injection Hnew.
Qed.

(** X11: upload, then delete. After an upload answered 200, an
    authenticated delete of the filename the response gave is answered 200
    with the size that was uploaded, and the file is gone; this needs the
    stored name to be non-empty and free of white space at its ends, as the
    delete route trims what it is given. *)
Theorem upload_then_delete (m : module) (uuidv4 : nat -> jsstring)
  (req : upload_request) (token : option jsstring) (v : Fs.volume)
  (p : Multer.part) :
  status (sent (post_upload m uuidv4 req v)) = 200 ->
  up_parts req = [p] ->
  authenticate (env m) token = Next tt ->
  stored_name uuidv4 p ≠ [] ->
  trim (stored_name uuidv4 p) = stored_name uuidv4 p ->
  (∀ i, v !! stored_path m uuidv4 p = Some i -> Fs.protected i = false) ->
  let o := delete_delete m
             (DeleteRequest token (Some (QString (stored_name uuidv4 p))))
             (volume_after (post_upload m uuidv4 req v)) in
  sent o = Response 200
             [("message"%string, JString (lit "File successfully deleted"));
              ("filename"%string, JString (stored_name uuidv4 p));
              ("size"%string, JNumber (Multer.part_length p))] ∧
  volume_after o !! stored_path m uuidv4 p = None.
Proof.
  intros H200 Hparts Hauth Hne Htrim Hfree o. subst o.
  destruct (upload_stored_entry m uuidv4 req v p H200 Hparts) as (prot & Hentry & Hprot).
  rewrite (Hprot Hfree) in Hentry.
  unfold delete_delete. cbn [del_authorization del_filename].
  rewrite Hauth, validateFilename_string, Htrim.
  rewrite !bool_decide_eq_false_2 by done.
  rewrite delete_handler_cases, delete_target_join by done.
  fold (stored_path m uuidv4 p). rewrite Hentry. cbn.
  split; [reflexivity | apply lookup_delete_eq].
Qed.

Lemma upload_then_delete_witness :
  let up := post_upload Sample.m Sample.uuidv4
              (UploadRequest Sample.bearer [Sample.photo]) ∅ in
  let name := stored_name Sample.uuidv4 Sample.photo in
  sent (delete_delete Sample.m (DeleteRequest Sample.bearer (Some (QString name)))
          (volume_after up))
  = Response 200
      [("message"%string, JString (lit "File successfully deleted"));
       ("filename"%string, JString name);
       ("size"%string, JNumber 2048576)].
Proof.
  cbv zeta.
  apply (upload_then_delete Sample.m Sample.uuidv4
           (UploadRequest Sample.bearer [Sample.photo]) Sample.bearer ∅
           Sample.photo).
  - vm_compute. reflexivity.
  - reflexivity.
  - vm_compute. reflexivity.
  - vm_compute. discriminate.
  - vm_compute. reflexivity.
  - intros i Hi. rewrite lookup_empty in Hi. discriminate.
Defined.

(** X12: delete, then download. Once a delete of a filename has been
    answered 200, a download request for [/files/<filename>] is answered
    404 by the check in front of the static server. *)
Theorem deleted_file_not_served (m : module) (req : delete_request)
  (filename : jsstring) (v : Fs.volume) :
  status (sent (delete_delete m req v)) = 200 ->
  validateFilename (del_filename req) = Next filename ->
  files_check m (Path.slash :: filename) (volume_after (delete_delete m req v))
  = Respond FileNotFound_requested ∧
  status FileNotFound_requested = 404.
Proof.
  intros H200 Hval.
  destruct (delete_accepted m req v H200)
    as (Hauth & f & i & Hval' & Hi & Hprot & Hdir).
  rewrite Hval in Hval'. injection Hval' as <-. split; [|reflexivity].
  destruct (validateFilename_next _ _ Hval) as (s & _ & _ & Hne).
  unfold files_check. rewrite files_check_target by done.
  assert (Hv' : volume_after (delete_delete m req v)
                = delete (delete_target m filename) v).
  { unfold delete_delete.
    by rewrite Hauth, Hval, delete_handler_cases, Hi, Hprot, Hdir. }
  rewrite Hv'. unfold Fs.existsSync. rewrite lookup_delete_eq.
  rewrite bool_decide_eq_false_2; [done|]. by intros [? ?].
Qed.

Lemma deleted_file_not_served_witness :
  let name := lit "123e4567-e89b-12d3-a456-426614174000.JPG" in
  let req := DeleteRequest Sample.bearer (Some (QString name)) in
  files_check Sample.m (Path.slash :: name) Sample.vol = Next tt ∧
  files_check Sample.m (Path.slash :: name)
    (volume_after (delete_delete Sample.m req Sample.vol))
  = Respond FileNotFound_requested.
Proof.
  cbv zeta. split; [vm_compute; reflexivity|].
  apply (deleted_file_not_served Sample.m
           (DeleteRequest Sample.bearer
              (Some (QString (lit "123e4567-e89b-12d3-a456-426614174000.JPG"))))
           (lit "123e4567-e89b-12d3-a456-426614174000.JPG") Sample.vol).
  - vm_compute. reflexivity.
  - vm_compute. reflexivity.
Defined.

(** X13: upload, then download. After an upload answered 200, the check in
    front of the static server lets a request for [/files/<filename>]
    through, for the filename the response gave; no Authorization header
    is looked at. *)
Theorem uploaded_file_served (m : module) (uuidv4 : nat -> jsstring)
  (req : upload_request) (v : Fs.volume) (p : Multer.part) :
  status (sent (post_upload m uuidv4 req v)) = 200 ->
  up_parts req = [p] ->
  stored_name uuidv4 p ≠ [] ->
  files_check m (Path.slash :: stored_name uuidv4 p)
    (volume_after (post_upload m uuidv4 req v)) = Next tt.
Proof.
  intros H200 Hparts Hne.
  destruct (upload_stored_entry m uuidv4 req v p H200 Hparts) as (prot & Hentry & _).
  unfold files_check. rewrite files_check_target, delete_target_join by done.
  fold (stored_path m uuidv4 p). unfold Fs.existsSync. rewrite Hentry.
  by rewrite bool_decide_eq_true_2 by eauto.
Qed.

Lemma uploaded_file_served_witness :
  files_check Sample.m (Path.slash :: stored_name Sample.uuidv4 Sample.photo)
    (volume_after (post_upload Sample.m Sample.uuidv4
                     (UploadRequest Sample.bearer [Sample.photo]) ∅)) = Next tt.
Proof.
  apply (uploaded_file_served Sample.m Sample.uuidv4
           (UploadRequest Sample.bearer [Sample.photo]) ∅ Sample.photo).
  - vm_compute. reflexivity.
  - reflexivity.
  - vm_compute. discriminate.
Defined.

(** ** The error handler *)

(** X14: whatever error reaches it, the error handler answers with a
    status among 400, 403, 404, 413 and 500 and a body of exactly the two
    fields [error] and [message]. Unless the error is a MulterError or is
    named ValidationError, the answer does not depend on the message of the
    error: that text is never sent out. *)
Theorem errorHandler_discloses_nothing (err : jserror) :
  status (errorHandler err) ∈ [400; 403; 404; 413; 500] ∧
  (∃ e msg, body (errorHandler err) =
            [("error"%string, JString e); ("message"%string, JString msg)]) ∧
  (instanceofMulterError err = false -> name err ≠ lit "ValidationError" ->
   ∀ text,
     errorHandler (JsError false (name err) (code err) text) = errorHandler err).
Proof.
  split; [|split].
  - pose proof (errorHandler_status err) as H.
    rewrite !elem_of_cons in *. tauto.
  - unfold errorHandler. repeat case_match; eexists _, _; reflexivity.
  - intros Hm Hname text. unfold errorHandler.
    cbn [instanceofMulterError name code message]. rewrite Hm.
    by rewrite !(bool_decide_eq_false_2 (name err = _)) by done.
Qed.

Lemma errorHandler_discloses_nothing_witness :
  errorHandler (JsError false (lit "Error") (Some (lit "EPERM"))
                        (lit "operation not permitted, unlink /app/src/uploads"))
  = errorHandler (JsError false (lit "Error") (Some (lit "EPERM")) []).
Proof.
  apply (proj2 (proj2 (errorHandler_discloses_nothing
                         (JsError false (lit "Error") (Some (lit "EPERM")) [])))).
  - reflexivity.
  - vm_compute. discriminate.
Defined.

(** ** The authenticator of the single-file application *)

(** X15: the authenticator of [index.js] and the one of [routes/files.js]
    let the same requests through; the requests they turn away are
    answered 401 by both, by the earlier one with the single field
    [error: Unauthorized]. *)
Theorem authenticate_legacy_agrees (e : environment) (token : option jsstring) :
  (authenticate_legacy e token = Next tt <-> authenticate e token = Next tt) ∧
  (authenticate_legacy e token ≠ Next tt ->
   authenticate_legacy e token = Respond Unauthorized_legacy ∧
   status Unauthorized_legacy = 401 ∧
   ∃ r, authenticate e token = Respond r ∧ status r = 401).
Proof.
  rewrite authenticate_pass. unfold authenticate_legacy.
  case_bool_decide as Htoken.
  - split; [done|]. by intros [].
  - split; [split; [discriminate | done]|]. intros _.
    split; [reflexivity|]. split; [reflexivity|].
    destruct (authenticate_fail e token Htoken) as [-> | ->]; eauto.
Qed.

(** ** The loaded configuration *)

Lemma or_else_not_nil (x : option jsstring) (fallback : jsstring) :
  fallback ≠ [] -> or_else x fallback ≠ [].
Proof. intros Hf. unfold or_else. by destruct x as [[|c s]|]. Qed.

(** X16: whatever the process environment, the loaded base URL and volume
    path are never empty: an unset or empty BASE_URL gives the default URL,
    a non-empty VOLUME_PATH is taken as it is. The secret alone has no
    default, and is undefined exactly when AUTH_TOKEN is unset. *)
Theorem load_environment_defaults (process_env : gmap string jsstring)
  (config_dirname : jsstring) :
  let e := load_environment process_env config_dirname in
  baseUrl e ≠ [] ∧ volumePath e ≠ [] ∧
  (process_env !! "BASE_URL"%string = Some [] ∨
   process_env !! "BASE_URL"%string = None ->
   baseUrl e = lit "http://localhost:3000") ∧
  (∀ s, s ≠ [] -> process_env !! "VOLUME_PATH"%string = Some s ->
        volumePath e = s) ∧
  (authToken e = None <-> process_env !! "AUTH_TOKEN"%string = None).
Proof.
  cbv zeta. unfold load_environment. cbn [baseUrl volumePath authToken].
  repeat split; try done.
  - by apply or_else_not_nil.
  - apply or_else_not_nil, join_not_nil.
  - by intros [-> | ->].
  - intros s Hs ->. unfold or_else. by destruct s.
Qed.

(** ** One file, two routes *)

(** X17: the delete route treats a filename and its trimmed form alike:
    when trimming leaves something, the request with the white space
    around the name and the request without it have the same outcome. *)
Theorem delete_ignores_outer_space (m : module) (token : option jsstring)
  (s : jsstring) (v : Fs.volume) :
  trim s ≠ [] ->
  delete_delete m (DeleteRequest token (Some (QString s))) v =
  delete_delete m (DeleteRequest token (Some (QString (trim s)))) v.
Proof.
  intros Hs. unfold delete_delete. cbn [del_authorization del_filename].
  rewrite !validateFilename_string, trim_trim.
  rewrite !(bool_decide_eq_false_2 (trim s = [])) by done.
  rewrite (bool_decide_eq_false_2 (s = [])); [done|]. intros ->. by apply Hs.
Qed.

Lemma delete_ignores_outer_space_witness :
  delete_delete Sample.m
    (DeleteRequest Sample.bearer (Some (QString (lit "  ../secret.env "))))
    Sample.vol =
  delete_delete Sample.m
    (DeleteRequest Sample.bearer
       (Some (QString (trim (lit "  ../secret.env ")))))
    Sample.vol.
Proof.
  apply (delete_ignores_outer_space Sample.m Sample.bearer
           (lit "  ../secret.env ") Sample.vol).
  vm_compute. discriminate.
Defined.

(** X18: the delete handler and the download check look at the same path:
    for a non-empty filename, a download of [/files/<filename>] is turned
    away with 404 exactly when a delete of that filename would be. *)
Theorem delete_and_download_agree (m : module) (filename : jsstring)
  (v : Fs.volume) :
  filename ≠ [] ->
  (files_check m (Path.slash :: filename) v = Respond FileNotFound_requested <->
   (delete_handler m filename v).1 = FileNotFound) ∧
  (files_check m (Path.slash :: filename) v = Next tt <->
   Fs.existsSync (delete_target m filename) v = true).
Proof.
  intros Hf. unfold files_check. rewrite files_check_target by done.
  rewrite delete_handler_cases. unfold Fs.existsSync.
  destruct (v !! delete_target m filename) as [i|] eqn:Hi.
  - rewrite bool_decide_eq_true_2 by eauto. cbn [negb].
    split; [|done]. split; [discriminate|].
    destruct (Fs.protected i); [discriminate|].
    destruct (Fs.isDirectory i); discriminate.
  - rewrite bool_decide_eq_false_2 by (by intros [? ?]). cbn [negb].
    split; [done|]. split; discriminate.
Qed.

Lemma delete_and_download_agree_witness :
  files_check Sample.m (Path.slash :: lit "missing.png") Sample.vol
  = Respond FileNotFound_requested <->
  (delete_handler Sample.m (lit "missing.png") Sample.vol).1 = FileNotFound.
Proof.
  apply (delete_and_download_agree Sample.m (lit "missing.png") Sample.vol).
  discriminate.
Defined.
